(** * codebase.py: the ignore-aware file walk and its command-line driver

    A shallow embedding of [load_gitignore], [gather_files_to_include],
    [write_codebase_to_file] and [main] of [src/codebase.py], together with
    the fragments of [pathlib], [os] and [str] they rely on.

    The gitwildmatch engine itself lives in the third-party [pathspec]
    package.  The functions of the script are therefore embedded over an
    arbitrary pattern compiler [from_lines] and an arbitrary matcher
    [match_file]; the module [GitWildMatch] further down gives the matcher
    the specification describes.

    The functions come twice: first on a tree where the system refuses
    nothing, then, in the module [Full], with the exceptions of
    directories that may not be listed or searched, of an ignore file
    that does not open or decode, and of a line the compiler rejects.
    The two agree where nothing is refused. *)

From Stdlib Require Import String Ascii List Bool.
From Stdlib Require Import DecimalString PeanoNat Lia.
Import ListNotations.

Local Open Scope string_scope.
Local Open Scope list_scope.

(** ** Exceptions *)

(** On a tree where the system refuses nothing, the only exception the
    walk can raise is the [ValueError] of [PurePath.relative_to]; the
    module [Full] further down has the others. *)
Inductive result (A : Type) : Type :=
| Ok (value : A)
| ValueError.
Arguments Ok {A} value.
Arguments ValueError {A}.

Definition bind {A B : Type} (r : result A) (k : A -> result B) : result B :=
  match r with
  | Ok a => k a
  | ValueError => ValueError
  end.

Notation "x <- r ;; k" := (bind r (fun x => k))
  (at level 61, r at next level, right associativity).

(** ** Strings *)

Definition slash : ascii := "/"%char.
Definition backslash : ascii := "092"%char.
Definition LF : ascii := "010"%char.
Definition CR : ascii := "013"%char.

(** [s.replace(old, new)] for one-character [old] and [new], which is how
    the script calls it: [os.sep] and ['/'] are both one character long. *)
Fixpoint replace (old new : ascii) (s : string) : string :=
  match s with
  | EmptyString => EmptyString
  | String c s' => String (if Ascii.eqb c old then new else c) (replace old new s')
  end.

(** [c in s] *)
Fixpoint contains (c : ascii) (s : string) : bool :=
  match s with
  | EmptyString => false
  | String d s' => Ascii.eqb d c || contains c s'
  end.

(** [sep.join(l)] *)
Definition join (sep : ascii) (l : list string) : string :=
  String.concat (String sep EmptyString) l.

(** Text-mode reading translates ["\r\n"] and a lone ["\r"] to ["\n"]. *)
Fixpoint universal_newlines (s : string) : string :=
  match s with
  | EmptyString => EmptyString
  | String c t =>
      if Ascii.eqb c CR then
        match t with
        | String d r =>
            if Ascii.eqb d LF then String LF (universal_newlines r)
            else String LF (universal_newlines t)
        | EmptyString => String LF EmptyString
        end
      else String c (universal_newlines t)
  end.

(** Splitting after every ["\n"], line endings kept. *)
Fixpoint split_keepends (s : string) : list string :=
  match s with
  | EmptyString => []
  | String c t =>
      if Ascii.eqb c LF then String c EmptyString :: split_keepends t
      else
        match split_keepends t with
        | [] => [String c EmptyString]
        | l :: ls => String c l :: ls
        end
  end.

(** [f.readlines()] on a file opened with [open(path, 'r')]. *)
Definition readlines (content : string) : list string :=
  split_keepends (universal_newlines content).

(** ** Paths *)

(** The two path flavours of [pathlib]; [os.sep] is ['/'] on the first and
    a backslash on the second. *)
Inductive flavour : Type := Posix | Windows.

Definition os_sep (f : flavour) : ascii :=
  match f with
  | Posix => slash
  | Windows => backslash
  end.

(** A [Path]: the anchor (drive and root, empty for a relative path) and
    the components after it. *)
Record Path : Type := mkPath { anchor : string; parts : list string }.

(** [str(p)] *)
Definition str (f : flavour) (p : Path) : string :=
  match anchor p, parts p with
  | EmptyString, [] => "."
  | a, ps => a ++ join (os_sep f) ps
  end.

(** [p / q] *)
Definition joinpath (p q : Path) : Path :=
  match anchor q with
  | EmptyString => mkPath (anchor p) (parts p ++ parts q)
  | _ => q
  end.

(** The path of a descendant of [p], as the globbing code builds it. *)
Definition child (p : Path) (rel : list string) : Path :=
  mkPath (anchor p) (parts p ++ rel).

(** A relative path made of the given components. *)
Definition relative (rel : list string) : Path := mkPath EmptyString rel.

(** [p.name] *)
Definition name (p : Path) : string := last (parts p) EmptyString.

Fixpoint strip_prefix (pre l : list string) : option (list string) :=
  match pre, l with
  | [], _ => Some l
  | x :: pre', y :: l' => if String.eqb x y then strip_prefix pre' l' else None
  | _ :: _, [] => None
  end.

(** [p.relative_to(other)]; raises [ValueError] when [p] is not below
    [other]. *)
Definition relative_to (p other : Path) : result Path :=
  if String.eqb (anchor p) (anchor other) then
    match strip_prefix (parts other) (parts p) with
    | Some rest => Ok (relative rest)
    | None => ValueError
    end
  else ValueError.

(** ** A snapshot of the file system *)

Inductive special : Type := CharDevice | BlockDevice | Fifo | Socket.

(** What a symbolic link resolves to. *)
Inductive link_target : Type :=
| ToFile (content : string)
| ToDir
| ToSpecial (s : special)
| Dangling.

(** An entry of the tree.  A directory lists its entries in the order
    [os.scandir] reports them. *)
Inductive node : Type :=
| File (content : string)
| Dir (entries : list (string * node))
| Symlink (target : link_target)
| Special (s : special).

Fixpoint find_entry (n : string) (es : list (string * node)) : option node :=
  match es with
  | [] => None
  | (m, c) :: es' => if String.eqb m n then Some c else find_entry n es'
  end.

(** The entry a list of components leads to, starting from [n]. *)
Fixpoint lookup (n : node) (ps : list string) : option node :=
  match ps with
  | [] => Some n
  | p :: ps' =>
      match n with
      | Dir es =>
          match find_entry p es with
          | Some c => lookup c ps'
          | None => None
          end
      | _ => None
      end
  end.

(** The file system is the tree below the anchor. *)
Definition stat (fs : node) (p : Path) : option node := lookup fs (parts p).

(** [p.is_file()]: a regular file, or a symbolic link pointing to one.
    [stat] is never refused on this tree; [Full.is_file] raises the
    [PermissionError] of a directory that may not be searched. *)
Definition is_file (fs : node) (p : Path) : bool :=
  match stat fs p with
  | Some (File _) => true
  | Some (Symlink (ToFile _)) => true
  | _ => false
  end.

(** [p.is_dir()]: a directory, or a symbolic link pointing to one. *)
Definition is_dir (fs : node) (p : Path) : bool :=
  match stat fs p with
  | Some (Dir _) => true
  | Some (Symlink ToDir) => true
  | _ => false
  end.

(** The text [open(p, 'r').read()] sees, before newline translation. *)
Definition file_content (fs : node) (p : Path) : string :=
  match stat fs p with
  | Some (File c) => c
  | Some (Symlink (ToFile c)) => c
  | _ => EmptyString
  end.

(** [rglob('*')], as components relative to the directory walked: first
    every entry of the directory, then the same for each of its
    sub-directories in turn.  Symbolic links to directories are listed but
    not descended into.  Every directory of this tree may be listed;
    [Full.walk] skips those that may not. *)
Fixpoint walk (prefix : list string) (n : node) : list (list string) :=
  match n with
  | Dir es =>
      map (fun e => prefix ++ [fst e]) es ++
      (fix descend (l : list (string * node)) : list (list string) :=
         match l with
         | [] => []
         | (m, c) :: l' => walk (prefix ++ [m]) c ++ descend l'
         end) es
  | _ => []
  end.

Definition rglob_relative (fs : node) (root_dir : Path) : list (list string) :=
  match stat fs root_dir with
  | Some d => walk [] d
  | None => []
  end.

(** [root_dir.rglob('*')] *)
Definition rglob (fs : node) (root_dir : Path) : list Path :=
  map (child root_dir) (rglob_relative fs root_dir).

(** ** The script *)

(** [default_ignores] of [load_gitignore]. *)
Definition default_ignores : list string :=
  [".git/"; "__pycache__/"; "*.pyc"; ".DS_Store"].

(** [root_dir / '.gitignore'] *)
Definition gitignore_path (root_dir : Path) : Path :=
  joinpath root_dir (relative [".gitignore"]).

(** The local variable [patterns] of [load_gitignore] once the [if] is
    behind it: the lines of the ignore file, or nothing. *)
Definition patterns (fs : node) (root_dir : Path) : list string :=
  if is_file fs (gitignore_path root_dir)
  then readlines (file_content fs (gitignore_path root_dir))
  else [].

(** What the walk has accumulated: the list it returns, and a record of
    every string handed to [spec.match_file], oldest first. *)
Record walk_state : Type := mkState {
  files_to_include : list (Path * Path);
  match_calls : list string
}.

Fixpoint for_each {S A : Type} (body : S -> A -> result S) (st : S) (l : list A)
  : result S :=
  match l with
  | [] => Ok st
  | x :: l' => st' <- body st x ;; for_each body st' l'
  end.

(** What happens to the output document. *)
Inductive event : Type :=
| Print (line : string)
| WriteOutput (output_filename project_name : string) (files_list : list (Path * Path))
| Uncaught.

Definition is_output (e : event) : bool :=
  match e with
  | WriteOutput _ _ _ => true
  | _ => false
  end.

Definition decimal (n : nat) : string := NilZero.string_of_uint (Nat.to_uint n).

Fixpoint repeat_char (c : ascii) (n : nat) : string :=
  match n with
  | O => EmptyString
  | S n' => String c (repeat_char c n')
  end.

Section Script.

(** [pathspec.PathSpec], [PathSpec.from_lines('gitwildmatch', _)] and
    [PathSpec.match_file]. *)
Variable PathSpec : Type.
Variable from_lines : list string -> PathSpec.
Variable match_file : PathSpec -> string -> bool.

Variable f : flavour.
Variable fs : node.

(** [load_gitignore] where the ignore file opens and decodes and the
    compiler accepts every line; [Full.load_gitignore] has the
    exceptions of the other cases. *)
Definition load_gitignore (root_dir : Path) : PathSpec :=
  from_lines (patterns fs root_dir ++ default_ignores).

(** The string the walk hands to the matcher for a relative path. *)
Definition relative_path_str (relative_path : Path) : string :=
  replace (os_sep f) slash (str f relative_path).

(** One iteration of the loop of [gather_files_to_include]. *)
Definition visit (root_dir : Path) (spec : PathSpec)
           (st : walk_state) (path_obj : Path) : result walk_state :=
  if is_file fs path_obj then
    relative_path <- relative_to path_obj root_dir ;;
    let s := relative_path_str relative_path in
    let calls := match_calls st ++ [s] in
    if negb (match_file spec s)
    then Ok (mkState (files_to_include st ++ [(path_obj, relative_path)]) calls)
    else Ok (mkState (files_to_include st) calls)
  else Ok st.

Definition gather_run (root_dir : Path) (spec : PathSpec) : result walk_state :=
  for_each (visit root_dir spec) (mkState [] []) (rglob fs root_dir).

Definition gather_files_to_include (root_dir : Path) (spec : PathSpec)
  : result (list (Path * Path)) :=
  st <- gather_run root_dir spec ;; Ok (files_to_include st).

(** [write_codebase_to_file]: the document is one header and one section
    per entry of [files_list], in order.  [writable] tells whether
    opening the output file succeeds.  The line printed otherwise is cut
    after the file name; [Full.write_codebase_to_file] has it whole, for
    an [IOError] at any point of the block. *)
Definition write_codebase_to_file (writable : bool) (project_name : string)
           (files_list : list (Path * Path)) (output_filename : string)
  : list event :=
  if writable then [WriteOutput output_filename project_name files_list]
  else [Print (String LF "Error writing to output file '" ++ output_filename ++ "'")].

(** [main], from [root_dir = Path(args.directory).resolve()] on.
    [output_arg] is [args.output_filename]; [elapsed] is the formatted
    duration.  This is the run in which [is_dir], [load_gitignore] and
    [is_file] raise nothing; [Full.main] has the runs in which they
    do. *)
Definition main (writable : bool) (elapsed : string)
           (root_dir : Path) (output_arg : option string) : list event :=
  if negb (is_dir fs root_dir) then
    [Print ("Error: Directory '" ++ str f root_dir ++ "' not found.")]
  else
    let project_name := name root_dir in
    let output_filename :=
      match output_arg with
      | Some (String c s) => String c s
      | _ => (project_name ++ "_codebase.md")%string
      end in
    Print ("Starting to process directory: " ++ str f root_dir) ::
    let spec := load_gitignore root_dir in
    match gather_files_to_include root_dir spec with
    | ValueError => [Uncaught]
    | Ok [] => [Print "No files to include. Check your .gitignore or directory."]
    | Ok files =>
        Print ("Found " ++ decimal (length files) ++ " files to include.") ::
        write_codebase_to_file writable project_name files output_filename ++
        [Print (String LF (repeat_char "=" 50));
         Print "CODEBASE CONSOLIDATION COMPLETE";
         Print (repeat_char "=" 50);
         Print ("Success! Combined " ++ decimal (length files)
                ++ " files into a single file.");
         Print ("Output file: " ++ output_filename);
         Print ("Time taken: " ++ elapsed ++ " seconds");
         Print (repeat_char "=" 50)]
    end.

End Script.

Arguments load_gitignore {PathSpec} from_lines fs root_dir.
Arguments visit {PathSpec} match_file f fs root_dir spec st path_obj.
Arguments gather_run {PathSpec} match_file f fs root_dir spec.
Arguments gather_files_to_include {PathSpec} match_file f fs root_dir spec.
Arguments main {PathSpec} from_lines match_file f fs writable elapsed root_dir output_arg.

(** ** The pattern matcher of the specification *)

Module GitWildMatch.

(** Modelled from the spec: a parsed rule of the Pattern Matcher, which
    the script takes from the [pathspec] package and which is not under
    [src/].  The attributes are those of section 3: raw text, negation
    flag, anchoring, directory-only flag and glob segments. *)
Record Pattern : Type := mkPattern {
  raw : string;
  negated : bool;
  anchored : bool;
  directory_only : bool;
  segments : list string
}.

(** Modelled from the spec: the PatternSet of the absent matcher, an
    ordered sequence of patterns. *)
Definition PatternSet : Type := list Pattern.

Definition is_space (c : ascii) : bool :=
  Ascii.eqb c " " || Ascii.eqb c "009" || Ascii.eqb c LF || Ascii.eqb c CR.

(** [s] without the spaces, tabs, line feeds and carriage returns at its
    end. *)
Fixpoint rstrip (s : string) : string :=
  match s with
  | EmptyString => EmptyString
  | String c t =>
      match rstrip t with
      | EmptyString => if is_space c then EmptyString else String c EmptyString
      | t' => String c t'
      end
  end.

(** [s.split(sep)] *)
Fixpoint split (sep : ascii) (s : string) : list string :=
  match s with
  | EmptyString => [EmptyString]
  | String c t =>
      if Ascii.eqb c sep then EmptyString :: split sep t
      else
        match split sep t with
        | [] => [String c EmptyString]
        | x :: xs => String c x :: xs
        end
  end.

(** The last character of [s], if any, and [s] without it. *)
Fixpoint unsnoc (s : string) : option (string * ascii) :=
  match s with
  | EmptyString => None
  | String c t =>
      match unsnoc t with
      | None => Some (EmptyString, c)
      | Some (t', d) => Some (String c t', d)
      end
  end.

(** Modelled from the spec: the line parser of the absent matcher.  A
    blank line and a line beginning with [#] give no pattern; a leading
    [!] negates; a trailing [/] makes the rule directory-only; a rule
    with a slash elsewhere is anchored to the root. *)
Definition parse_pattern (line : string) : option Pattern :=
  match rstrip line with
  | EmptyString => None
  | String c rest =>
      if Ascii.eqb c "#" then None
      else
        let neg := Ascii.eqb c "!" in
        let body := if neg then rest else String c rest in
        let '(body, dir) :=
          match unsnoc body with
          | Some (b, d) => if Ascii.eqb d slash then (b, true) else (body, false)
          | None => (body, false)
          end in
        let anch := contains slash body in
        let body :=
          match body with
          | String d r => if Ascii.eqb d slash then r else body
          | EmptyString => body
          end in
        match body with
        | EmptyString => None
        | _ => Some (mkPattern line neg anch dir (split slash body))
        end
  end.

(** Modelled from the spec: [PathSpec.from_lines] of the absent matcher,
    which keeps the rules of the lines that carry one, in order. *)
Fixpoint from_lines (lines : list string) : PatternSet :=
  match lines with
  | [] => []
  | l :: lines' =>
      match parse_pattern l with
      | Some p => p :: from_lines lines'
      | None => from_lines lines'
      end
  end.

(** Modelled from the spec: glob matching inside one path segment of the
    absent matcher; [*] is any run of characters, [?] any one character,
    everything else stands for itself, case-sensitively. *)
Fixpoint glob (p s : string) : bool :=
  match p with
  | EmptyString => match s with EmptyString => true | _ => false end
  | String c p' =>
      if Ascii.eqb c "*" then
        (fix star (s : string) : bool :=
           glob p' s || match s with
                        | EmptyString => false
                        | String _ s' => star s'
                        end) s
      else
        match s with
        | EmptyString => false
        | String d s' => (Ascii.eqb c "?" || Ascii.eqb c d) && glob p' s'
        end
  end.

(** Modelled from the spec: matching the segments of an anchored rule of
    the absent matcher against the segments of an entry; a [**] segment
    stands for any number of path segments. *)
Fixpoint match_segments (pat path : list string) : bool :=
  match pat with
  | [] => match path with [] => true | _ => false end
  | p :: pat' =>
      if String.eqb p "**" then
        (fix skip (path : list string) : bool :=
           match_segments pat' path || match path with
                                       | [] => false
                                       | _ :: path' => skip path'
                                       end) path
      else
        match path with
        | [] => false
        | x :: path' => glob p x && match_segments pat' path'
        end
  end.

(** Modelled from the spec: whether a rule of the absent matcher names
    the entry [target]: an anchored rule is matched from the root, a
    rule without a slash against the last segment at any depth. *)
Definition matches_entry (p : Pattern) (target : list string) : bool :=
  if anchored p then match_segments (segments p) target
  else
    match segments p with
    | [g] => glob g (last target EmptyString)
    | _ => false
    end.

(** Modelled from the spec: a rule of the absent matcher applies to a
    path when it names the path or a directory above it; a
    directory-only rule names directories only. *)
Fixpoint applies_from (p : Pattern) (seen rest : list string) (isDirectory : bool)
  : bool :=
  match rest with
  | [] => false
  | x :: rest' =>
      let target_is_dir := match rest' with [] => isDirectory | _ => true end in
      (matches_entry p (seen ++ [x]) && (negb (directory_only p) || target_is_dir))
      || applies_from p (seen ++ [x]) rest' isDirectory
  end.

Definition applies (p : Pattern) (relativePath : string) (isDirectory : bool) : bool :=
  applies_from p [] (split slash relativePath) isDirectory.

(** Modelled from the spec: [matches] of the absent matcher.  Every
    pattern is tried in order; one that applies sets the excluded state
    when it is a normal pattern and clears it when it is negated; the
    final state is the answer. *)
Definition matches (ps : PatternSet) (relativePath : string) (isDirectory : bool)
  : bool :=
  fold_left
    (fun excluded p =>
       if applies p relativePath isDirectory then negb (negated p) else excluded)
    ps false.

(** Modelled from the spec: [PathSpec.match_file] of the absent matcher;
    the walk only asks about files. *)
Definition match_file (ps : PatternSet) (relativePath : string) : bool :=
  matches ps relativePath false.

(** [build] and [gather] of the specification: the script over this
    matcher. *)
Definition build (fs : node) (root_dir : Path) : PatternSet :=
  load_gitignore from_lines fs root_dir.

Definition gather (f : flavour) (fs : node) (root_dir : Path) (ps : PatternSet)
  : result (list (Path * Path)) :=
  gather_files_to_include match_file f fs root_dir ps.

(** A line without a rule: blank, or a full-line comment. *)
Definition is_blank (line : string) : bool :=
  match rstrip line with EmptyString => true | _ => false end.

Definition is_comment (line : string) : bool :=
  match line with String c _ => Ascii.eqb c "#" | EmptyString => false end.

End GitWildMatch.

(** A [PathSpec] without any rule: nothing is ignored. *)
Definition no_rules : Type := unit.
Definition no_rules_match_file (spec : no_rules) (path : string) : bool := false.

(** ** Sample trees *)

(** [/proj] with a regular file, a symbolic link to a regular file, a
    socket and a sub-directory. *)
Definition sample_fs : node :=
  Dir [("proj",
        Dir [("a.py", File "print(1)");
             ("ln", Symlink (ToFile "target text"));
             ("sock", Special Socket);
             ("sub", Dir [("file.txt", File "hello")])])].

Definition sample_root : Path := mkPath "/" ["proj"].

(** The same tree on a drive of the other flavour. *)
Definition sample_root_windows : Path :=
  mkPath (String "C" (String ":" (String backslash EmptyString))) ["proj"].

(** A directory whose only file has a backslash in its name, which the
    first flavour allows. *)
Definition backslash_fs : node :=
  Dir [("proj", Dir [("a\b.txt", File "")])].


(** An ignore file with a glob, a directory rule, a comment, a blank line
    and a negated rule. *)
Definition ignore_text : string :=
  String.concat (String LF EmptyString)
    ["*.log"; "build/"; "# generated files"; ""; "!keep.txt"; ""].

(** A project that has an ignore file and a [build] directory. *)
Definition ignore_fs : node :=
  Dir [("proj",
        Dir [(".gitignore", File ignore_text);
             ("a.py", File "print(1)");
             ("build", Dir [("out.log", File ""); ("keep.txt", File "kept")])])].

(** The rules [build/], [*.txt] and [!keep.txt] once parsed. *)
Definition build_rule : GitWildMatch.Pattern :=
  GitWildMatch.mkPattern "build/" false false true ["build"].

Definition txt_rule : GitWildMatch.Pattern :=
  GitWildMatch.mkPattern "*.txt" false false false ["*.txt"].

Definition keep_rule : GitWildMatch.Pattern :=
  GitWildMatch.mkPattern "!keep.txt" true false false ["keep.txt"].

(** ** Vocabulary of the statements *)

(** The pair the walk appends for the entry reached by the components
    [rel] below [root_dir]. *)
Definition entry_of (root_dir : Path) (rel : list string) : Path * Path :=
  (child root_dir rel, relative rel).

(** [lstat] finds a regular file at [p], not a link to one. *)
Definition is_regular (fs : node) (p : Path) : bool :=
  match stat fs p with
  | Some (File _) => true
  | _ => false
  end.

(** The entries of the traversal that pass [is_file], and those the walk
    keeps. *)
Definition visited (fs : node) (root_dir : Path) (rel : list string) : bool :=
  is_file fs (child root_dir rel).

Definition kept {PathSpec : Type} (match_file : PathSpec -> string -> bool)
           (f : flavour) (fs : node) (root_dir : Path) (spec : PathSpec)
           (rel : list string) : bool :=
  visited fs root_dir rel && negb (match_file spec (relative_path_str f (relative rel))).

(** ** The output document *)

Definition nl : string := String LF EmptyString.

(** [s.rfind(c)] for a one-character [c]; [None] stands for [-1]. *)
Fixpoint rfind (c : ascii) (s : string) : option nat :=
  match s with
  | EmptyString => None
  | String d t =>
      match rfind c t with
      | Some i => Some (S i)
      | None => if Ascii.eqb d c then Some 0 else None
      end
  end.

(** [s[i:]] *)
Fixpoint slice_from (i : nat) (s : string) : string :=
  match i, s with
  | O, _ => s
  | S i', String _ t => slice_from i' t
  | S _, EmptyString => EmptyString
  end.

(** [p.suffix], as [pathlib] computes it from [rfind]: the last dot of
    the name has to be neither its first nor its last character. *)
Definition suffix (p : Path) : string :=
  match rfind "." (name p) with
  | Some i =>
      if Nat.ltb 0 i && Nat.ltb i (String.length (name p) - 1)
      then slice_from i (name p)
      else EmptyString
  | None => EmptyString
  end.

(** [s.lstrip(c)] for a one-character [c]. *)
Fixpoint lstrip (c : ascii) (s : string) : string :=
  match s with
  | EmptyString => EmptyString
  | String d t => if Ascii.eqb d c then lstrip c t else s
  end.

(** [lang] of [write_codebase_to_file]: [full_path.suffix.lstrip('.')]. *)
Definition lang (full_path : Path) : string := lstrip "." (suffix full_path).

(** How [open(full_path, 'r', encoding='utf-8', errors='strict')] followed
    by [infile.read()] ends: with the text of the file, with a
    [UnicodeDecodeError], or with another exception whose message is
    [e]. *)
Inductive read_outcome : Type :=
| Content (content : string)
| UnicodeDecodeError
| OtherException (e : string).

(** Everything handed to [outfile.write], in order, put together. *)
Definition written (writes : list string) : string :=
  fold_right String.append EmptyString writes.

Section Render.

Variable f : flavour.

(** The outcome of reading each path, and the result of
    [time.strftime('%Y-%m-%d %H:%M:%S')]. *)
Variable infile_read : Path -> read_outcome.
Variable generated_on : string.

(** The four writes of the header. *)
Definition header (project_name : string) (total_files : nat) : list string :=
  [("# Codebase for: " ++ project_name ++ nl)%string;
   ("# Generated on: " ++ generated_on ++ nl)%string;
   ("# Total files: " ++ decimal total_files ++ nl)%string;
   (repeat_char "=" 80 ++ nl ++ nl)%string].

(** The heading line of one file. *)
Definition heading (relative_path : Path) : string :=
  ("### File: `" ++ replace (os_sep f) slash (str f relative_path) ++ "`" ++ nl)%string.

(** The body of the [for] loop: the three writes of the heading, then
    either the three writes of the fenced content or the one write of the
    [except] clause that applies.  The file is read before anything of
    the fenced block is written. *)
Definition file_section (entry : Path * Path) : list string :=
  let '(full_path, relative_path) := entry in
  [("---" ++ nl)%string; heading relative_path; ("---" ++ nl ++ nl)%string] ++
  match infile_read full_path with
  | Content content =>
      [("```" ++ lang full_path ++ nl)%string;
       content;
       (nl ++ "```" ++ nl ++ nl)%string]
  | UnicodeDecodeError =>
      [("```" ++ nl ++
        "[Warning: Could not decode file content. It may be binary or have an unsupported encoding.]"
        ++ nl ++ "```" ++ nl ++ nl)%string]
  | OtherException e =>
      [("```" ++ nl ++ "[Error: Could not read file. Reason: " ++ e ++ "]"
        ++ nl ++ "```" ++ nl ++ nl)%string]
  end.

(** The writes of [write_codebase_to_file] once the output file is open,
    and the document they leave behind.  Writing itself is taken to
    succeed. *)
Definition outfile_writes (project_name : string) (files_list : list (Path * Path))
  : list string :=
  header project_name (length files_list) ++ flat_map file_section files_list.

Definition codebase_document (project_name : string) (files_list : list (Path * Path))
  : string :=
  written (outfile_writes project_name files_list).

End Render.

(** A reader that finds every file readable, with the text of the
    snapshot. *)
Definition read_snapshot (fs : node) (p : Path) : read_outcome :=
  Content (universal_newlines (file_content fs p)).

(** The same reader, except that the file at [bad] does not decode. *)
Definition read_undecodable (bad : Path) (fs : node) (p : Path) : read_outcome :=
  if String.eqb (str Posix p) (str Posix bad) then UnicodeDecodeError
  else read_snapshot fs p.

(** ** Vocabulary of the further statements *)

(** No name occurs twice in a directory listing, here and below. *)
Fixpoint names_distinct (l : list string) : bool :=
  match l with
  | [] => true
  | x :: l' => negb (existsb (String.eqb x) l') && names_distinct l'
  end.

Fixpoint distinct_names (n : node) : bool :=
  match n with
  | Dir es =>
      names_distinct (map fst es) &&
      (fix below (l : list (string * node)) : bool :=
         match l with
         | [] => true
         | (_, c) :: l' => distinct_names c && below l'
         end) es
  | _ => true
  end.

(** The tree with the text of every file blanked: what is left is the
    names and the kinds of the entries. *)
Fixpoint erase (n : node) : node :=
  match n with
  | File _ => File EmptyString
  | Dir es =>
      Dir ((fix each (l : list (string * node)) : list (string * node) :=
              match l with
              | [] => []
              | (m, c) :: l' => (m, erase c) :: each l'
              end) es)
  | Symlink (ToFile _) => Symlink (ToFile EmptyString)
  | Symlink t => Symlink t
  | Special s => Special s
  end.

(** A text with every line feed preceded by a carriage return. *)
Fixpoint to_crlf (s : string) : string :=
  match s with
  | EmptyString => EmptyString
  | String c t =>
      if Ascii.eqb c LF then String CR (String LF (to_crlf t))
      else String c (to_crlf t)
  end.

(** The project of [ignore_fs] with the ignore file saved with carriage
    returns. *)
Definition ignore_fs_crlf : node :=
  Dir [("proj",
        Dir [(".gitignore", File (to_crlf ignore_text));
             ("a.py", File "print(1)");
             ("build", Dir [("out.log", File ""); ("keep.txt", File "kept")])])].

(** A matcher that knows one path. *)
Definition only_path : Type := string.
Definition only_path_match_file (spec : only_path) (path : string) : bool :=
  String.eqb spec path.

(** ** Bytes and text *)

Definition in_range (lo hi b : nat) : bool := Nat.leb lo b && Nat.leb b hi.

(** Whether the bytes of [s] are well-formed UTF-8, which is what
    decoding with [encoding='utf-8'] and strict error handling asks for.
    [need] continuation bytes are still awaited, the next of them in
    [lo..hi]; this excludes overlong forms, surrogates and code points
    above U+10FFFF.  A decoded text is kept as its UTF-8 bytes: splitting
    at line feeds and replacing a separator act on bytes below 128, which
    occur in UTF-8 only as the characters themselves. *)
Fixpoint utf8_scan (need lo hi : nat) (s : string) : bool :=
  match s with
  | EmptyString => Nat.eqb need 0
  | String c t =>
      let b := nat_of_ascii c in
      match need with
      | S need' => in_range lo hi b && utf8_scan need' 128 191 t
      | O =>
          if Nat.leb b 127 then utf8_scan 0 128 191 t
          else if in_range 194 223 b then utf8_scan 1 128 191 t
          else if Nat.eqb b 224 then utf8_scan 2 160 191 t
          else if in_range 225 236 b || in_range 238 239 b then utf8_scan 2 128 191 t
          else if Nat.eqb b 237 then utf8_scan 2 128 159 t
          else if Nat.eqb b 240 then utf8_scan 3 144 191 t
          else if in_range 241 243 b then utf8_scan 3 128 191 t
          else if Nat.eqb b 244 then utf8_scan 3 128 143 t
          else false
      end
  end.

Definition utf8_valid (s : string) : bool := utf8_scan 0 128 191 s.

(** ** The script, with what the system may refuse *)

(** The definitions above describe a run on a tree where nothing is
    refused.  The module [Full] embeds the same functions together with
    their exceptions: a directory may not be listable or searchable, a
    file may not be openable or may not decode, and the pattern compiler
    may reject a line. *)
Module Full.

(** The exceptions that leave the functions of the script:
    [PermissionError] from [stat], [open] and [scandir];
    [UnicodeDecodeError] from reading the ignore file; the error a
    release of [pathspec] raises for a line it does not accept
    ([GitWildMatchPatternError], later [GitIgnorePatternError]); and the
    [ValueError] of [relative_to]. *)
Inductive exception : Type :=
| PermissionError
| UnicodeDecodeError
| PatternError
| ValueError.

Inductive outcome (A : Type) : Type :=
| Returns (value : A)
| Raises (e : exception).
Arguments Returns {A} value.
Arguments Raises {A} e.

Definition bind {A B : Type} (r : outcome A) (k : A -> outcome B) : outcome B :=
  match r with
  | Returns a => k a
  | Raises e => Raises e
  end.

(** What the process is allowed to do, by the components of a path:
    list a directory ([os.scandir]), search it (resolve a name inside
    it), open a file for reading. *)
Record access : Type := mkAccess {
  listable : list string -> bool;
  searchable : list string -> bool;
  openable : list string -> bool
}.

Definition open_access : access :=
  mkAccess (fun _ => true) (fun _ => true) (fun _ => true).

(** [os.stat] along the components [ps] below the directory [here]: a
    directory that may not be searched stops the resolution with
    [PermissionError]; a missing name or a component that is not a
    directory gives no entry. *)
Fixpoint lookup (acc : access) (here : list string) (n : node) (ps : list string)
  : outcome (option node) :=
  match ps with
  | [] => Returns (Some n)
  | p :: ps' =>
      match n with
      | Dir es =>
          if searchable acc here then
            match find_entry p es with
            | Some c => lookup acc (here ++ [p]) c ps'
            | None => Returns None
            end
          else Raises PermissionError
      | _ => Returns None
      end
  end.

Definition stat (acc : access) (fs : node) (p : Path) : outcome (option node) :=
  lookup acc [] fs (parts p).

(** [p.is_file()] and [p.is_dir()]: a missing entry is [False], a
    [PermissionError] is raised again. *)
Definition is_file (acc : access) (fs : node) (p : Path) : outcome bool :=
  bind (stat acc fs p) (fun r =>
    Returns match r with
            | Some (File _) => true
            | Some (Symlink (ToFile _)) => true
            | _ => false
            end).

Definition is_dir (acc : access) (fs : node) (p : Path) : outcome bool :=
  bind (stat acc fs p) (fun r =>
    Returns match r with
            | Some (Dir _) => true
            | Some (Symlink ToDir) => true
            | _ => false
            end).

(** [rglob('*')] below the directory [here]: a directory that may not be
    listed yields nothing and no error; one that may be listed but not
    searched yields its entries, and its sub-directories, which cannot be
    listed through it, yield nothing. *)
Fixpoint walk (acc : access) (here prefix : list string) (n : node)
  : list (list string) :=
  match n with
  | Dir es =>
      if listable acc here then
        map (fun e => prefix ++ [fst e]) es ++
        (if searchable acc here then
           (fix descend (l : list (string * node)) : list (list string) :=
              match l with
              | [] => []
              | (m, c) :: l' => walk acc (here ++ [m]) (prefix ++ [m]) c ++ descend l'
              end) es
         else [])
      else []
  | _ => []
  end.

Definition rglob_relative (acc : access) (fs : node) (root_dir : Path)
  : list (list string) :=
  match stat acc fs root_dir with
  | Returns (Some d) => walk acc (parts root_dir) [] d
  | _ => []
  end.

(** [root_dir.rglob('*')]; it starts by asking whether [root_dir] is a
    directory, which may raise. *)
Definition rglob (acc : access) (fs : node) (root_dir : Path) : outcome (list Path) :=
  bind (stat acc fs root_dir) (fun _ =>
    Returns (map (child root_dir) (rglob_relative acc fs root_dir))).

Fixpoint for_each {S A : Type} (body : S -> A -> outcome S) (st : S) (l : list A)
  : outcome S :=
  match l with
  | [] => Returns st
  | x :: l' => bind (body st x) (fun st' => for_each body st' l')
  end.

(** How the [with open(output_filename, 'w', ...)] block of
    [write_codebase_to_file] ends: normally, or with an [IOError] whose
    text is [e]. *)
Inductive output_result : Type :=
| Completed
| IOError (e : string).

Section Script.

Variable PathSpec : Type.
Variable from_lines : list string -> option PathSpec.
Variable match_file : PathSpec -> string -> bool.

Variable f : flavour.
Variable acc : access.
Variable fs : node.

(** [open(p, 'r', encoding='utf-8')] followed by [f.readlines()]. *)
Definition open_readlines (p : Path) : outcome (list string) :=
  if openable acc (parts p) then
    if utf8_valid (file_content fs p) then Returns (readlines (file_content fs p))
    else Raises UnicodeDecodeError
  else Raises PermissionError.

Definition load_gitignore (root_dir : Path) : outcome PathSpec :=
  bind (is_file acc fs (gitignore_path root_dir)) (fun present =>
  bind (if present then open_readlines (gitignore_path root_dir) else Returns [])
       (fun patterns =>
  match from_lines (patterns ++ default_ignores) with
  | Some spec => Returns spec
  | None => Raises PatternError
  end)).

(** One iteration of the loop of [gather_files_to_include]. *)
Definition visit (root_dir : Path) (spec : PathSpec)
           (st : walk_state) (path_obj : Path) : outcome walk_state :=
  bind (is_file acc fs path_obj) (fun file =>
  if file then
    match relative_to path_obj root_dir with
    | Ok relative_path =>
        let s := replace (os_sep f) slash (str f relative_path) in
        let calls := match_calls st ++ [s] in
        if negb (match_file spec s)
        then Returns (mkState (files_to_include st ++ [(path_obj, relative_path)]) calls)
        else Returns (mkState (files_to_include st) calls)
    | _ => Raises ValueError
    end
  else Returns st).

Definition gather_run (root_dir : Path) (spec : PathSpec) : outcome walk_state :=
  bind (rglob acc fs root_dir) (for_each (visit root_dir spec) (mkState [] [])).

Definition gather_files_to_include (root_dir : Path) (spec : PathSpec)
  : outcome (list (Path * Path)) :=
  bind (gather_run root_dir spec) (fun st => Returns (files_to_include st)).

(** [write_codebase_to_file], with the line its [except IOError] clause
    prints. *)
Definition write_codebase_to_file (io : output_result) (project_name : string)
           (files_list : list (Path * Path)) (output_filename : string)
  : list event :=
  match io with
  | Completed => [WriteOutput output_filename project_name files_list]
  | IOError e =>
      [Print (String LF "Error writing to output file '" ++ output_filename
              ++ "': " ++ e)]
  end.

(** [main], from [root_dir = Path(args.directory).resolve()] on.  An
    exception that leaves [main] ends the run, after what was printed
    before it. *)
Definition main (io : output_result) (elapsed : string)
           (root_dir : Path) (output_arg : option string) : list event :=
  match is_dir acc fs root_dir with
  | Raises _ => [Uncaught]
  | Returns false =>
      [Print ("Error: Directory '" ++ str f root_dir ++ "' not found.")]
  | Returns true =>
      let project_name := name root_dir in
      let output_filename :=
        match output_arg with
        | Some (String c s) => String c s
        | _ => (project_name ++ "_codebase.md")%string
        end in
      Print ("Starting to process directory: " ++ str f root_dir) ::
      match load_gitignore root_dir with
      | Raises _ => [Uncaught]
      | Returns spec =>
          match gather_files_to_include root_dir spec with
          | Raises _ => [Uncaught]
          | Returns [] =>
              [Print "No files to include. Check your .gitignore or directory."]
          | Returns files =>
              Print ("Found " ++ decimal (length files) ++ " files to include.") ::
              write_codebase_to_file io project_name files output_filename ++
              [Print (String LF (repeat_char "=" 50));
               Print "CODEBASE CONSOLIDATION COMPLETE";
               Print (repeat_char "=" 50);
               Print ("Success! Combined " ++ decimal (length files)
                      ++ " files into a single file.");
               Print ("Output file: " ++ output_filename);
               Print ("Time taken: " ++ elapsed ++ " seconds");
               Print (repeat_char "=" 50)]
          end
      end
  end.

End Script.

Arguments load_gitignore {PathSpec} from_lines acc fs root_dir.
Arguments visit {PathSpec} match_file f acc fs root_dir spec st path_obj.
Arguments gather_run {PathSpec} match_file f acc fs root_dir spec.
Arguments gather_files_to_include {PathSpec} match_file f acc fs root_dir spec.
Arguments main {PathSpec} from_lines match_file f acc fs io elapsed root_dir output_arg.

End Full.


(** [stat] succeeds on the root and on every entry the traversal
    yields. *)
Definition stats_succeed (acc : Full.access) (fs : node) (root_dir : Path) : Prop :=
  (exists d, Full.stat acc fs root_dir = Full.Returns d) /\
  forall rel, In rel (Full.rglob_relative acc fs root_dir) ->
              exists b, Full.is_file acc fs (child root_dir rel) = Full.Returns b.

(** What compiling [lines] gives: the pattern set, or the error of the
    compiler. *)
Definition compiled {PathSpec : Type} (from_lines : list string -> option PathSpec)
           (lines : list string) : Full.outcome PathSpec :=
  match from_lines lines with
  | Some spec => Full.Returns spec
  | None => Full.Raises Full.PatternError
  end.




(** A project whose ignore file is the single byte 255, which no UTF-8
    text contains. *)
Definition undecodable_fs : node :=
  Dir [("proj",
        Dir [(".gitignore", File (String (ascii_of_nat 255) EmptyString));
             ("a.py", File "print(1)")])].

(** A pattern compiler that accepts every line, and a matcher that takes
    the lines as literal paths. *)
Definition accept_all (lines : list string) : option (list string) := Some lines.


(** * Properties *)

(** ** The walk, in closed form *)

Lemma strip_prefix_app (pre l : list string) : strip_prefix pre (pre ++ l) = Some l.
Proof.
  induction pre as [|x pre IH]; simpl.
  - reflexivity.
  - rewrite String.eqb_refl. exact IH.
Qed.

Lemma relative_to_child (root_dir : Path) (rel : list string) :
  relative_to (child root_dir rel) root_dir = Ok (relative rel).
Proof.
  unfold relative_to, child; simpl.
  rewrite String.eqb_refl, strip_prefix_app. reflexivity.
Qed.

Section Walk.

Context {PathSpec : Type} (match_file : PathSpec -> string -> bool).
Variables (f : flavour) (fs : node) (root_dir : Path) (spec : PathSpec).

Let shown (rel : list string) : string := relative_path_str f (relative rel).

Lemma for_each_visit (rels : list (list string)) (st : walk_state) :
  for_each (visit match_file f fs root_dir spec) st (map (child root_dir) rels) =
  Ok (mkState
        (files_to_include st ++
         map (entry_of root_dir) (filter (kept match_file f fs root_dir spec) rels))
        (match_calls st ++ map shown (filter (visited fs root_dir) rels))).
Proof.
  revert st. induction rels as [|rel rels IH]; intros st; simpl.
  - rewrite !app_nil_r. destruct st; reflexivity.
  - unfold visit at 1, kept, visited.
    destruct (is_file fs (child root_dir rel)) eqn:Hfile; simpl.
    + rewrite relative_to_child; simpl.
      fold (shown rel).
      destruct (match_file spec (shown rel)) eqn:Hm; simpl;
        rewrite IH; simpl; rewrite <- ?app_assoc; reflexivity.
    + apply IH.
Qed.

Lemma gather_run_eq :
  gather_run match_file f fs root_dir spec =
  Ok (mkState
        (map (entry_of root_dir)
             (filter (kept match_file f fs root_dir spec) (rglob_relative fs root_dir)))
        (map shown (filter (visited fs root_dir) (rglob_relative fs root_dir)))).
Proof.
  unfold gather_run, rglob. rewrite for_each_visit. reflexivity.
Qed.

Lemma gather_files_eq :
  gather_files_to_include match_file f fs root_dir spec =
  Ok (map (entry_of root_dir)
          (filter (kept match_file f fs root_dir spec) (rglob_relative fs root_dir))).
Proof.
  unfold gather_files_to_include. rewrite gather_run_eq. reflexivity.
Qed.

Lemma in_entries (rel : list string) (rels : list (list string)) :
  In (entry_of root_dir rel) (map (entry_of root_dir) rels) <-> In rel rels.
Proof.
  split.
  - intros H. apply in_map_iff in H. destruct H as [rel' [Heq Hin]].
    unfold entry_of, relative in Heq. inversion Heq; subst. exact Hin.
  - apply in_map.
Qed.

End Walk.


(** ** Entries and the root *)

(** C10.  Every pair the walk returns holds a relative path in second
    place; joining the root with it gives the first component, and the
    first component made relative to the root gives it back. *)
Theorem gather_entries_relative_to_root
        {PathSpec : Type} (match_file : PathSpec -> string -> bool)
        (f : flavour) (fs : node) (root_dir : Path) (spec : PathSpec) :
  exists files,
    gather_files_to_include match_file f fs root_dir spec = Ok files /\
    Forall (fun e =>
              anchor (snd e) = EmptyString /\
              joinpath root_dir (snd e) = fst e /\
              relative_to (fst e) root_dir = Ok (snd e))
           files.
Proof.
  eexists. split; [apply gather_files_eq|].
  apply Forall_forall. intros e He.
  apply in_map_iff in He. destruct He as [rel [<- _]]; simpl.
  repeat split. apply relative_to_child.
Qed.

(** ** Kinds of entries *)

(** C8, as stated, fails: a symbolic link that points to a regular file
    passes [is_file] and is emitted. *)
Lemma symlink_to_file_is_emitted :
  exists files,
    gather_files_to_include no_rules_match_file Posix sample_fs sample_root tt = Ok files /\
    In (entry_of sample_root ["ln"]) files /\
    is_regular sample_fs (child sample_root ["ln"]) = false /\
    stat sample_fs (child sample_root ["ln"]) = Some (Symlink (ToFile "target text")).
Proof.
  eexists. split; [apply gather_files_eq|].
  split; [vm_compute; tauto|]. split; reflexivity.
Qed.

(** C8, amended.  Every emitted entry is a regular file or a symbolic link
    that points to one; a directory, a device, a fifo, a socket and any
    other symbolic link are never emitted. *)
Theorem gather_emits_files_only
        {PathSpec : Type} (match_file : PathSpec -> string -> bool)
        (f : flavour) (fs : node) (root_dir : Path) (spec : PathSpec) :
  exists files,
    gather_files_to_include match_file f fs root_dir spec = Ok files /\
    Forall (fun e =>
              (exists c, stat fs (fst e) = Some (File c) \/
                         stat fs (fst e) = Some (Symlink (ToFile c))) /\
              (forall es, stat fs (fst e) <> Some (Dir es)) /\
              (forall s, stat fs (fst e) <> Some (Special s)) /\
              stat fs (fst e) <> Some (Symlink ToDir) /\
              (forall s, stat fs (fst e) <> Some (Symlink (ToSpecial s))) /\
              stat fs (fst e) <> Some (Symlink Dangling))
           files.
Proof.
  eexists. split; [apply gather_files_eq|].
  apply Forall_forall. intros e He.
  apply in_map_iff in He. destruct He as [rel [<- Hin]]; simpl.
  apply filter_In in Hin. destruct Hin as [_ Hk].
  unfold kept, visited in Hk. apply andb_true_iff in Hk. destruct Hk as [Hfile _].
  unfold is_file in Hfile.
  destruct (stat fs (child root_dir rel)) as [[c|es|[c| | | ]|s]|];
    try discriminate; (split; [exists c; auto|]); repeat split; congruence.
Qed.

(** ** Separators *)

Lemma contains_replace (c d : ascii) (s : string) :
  c <> d -> contains c (replace c d s) = false.
Proof.
  intros Hcd. induction s as [|a s IH]; simpl.
  - reflexivity.
  - rewrite IH, orb_false_r. destruct (Ascii.eqb a c) eqn:Hac.
    + apply Ascii.eqb_neq. congruence.
    + exact Hac.
Qed.

Lemma replace_same (c : ascii) (s : string) : replace c c s = s.
Proof.
  induction s as [|a s IH]; simpl.
  - reflexivity.
  - rewrite IH. destruct (Ascii.eqb a c) eqn:Hac.
    + apply Ascii.eqb_eq in Hac. congruence.
    + reflexivity.
Qed.

Lemma contains_append (c : ascii) (s t : string) :
  contains c (s ++ t) = contains c s || contains c t.
Proof.
  induction s as [|a s IH]; simpl.
  - reflexivity.
  - rewrite IH. apply orb_assoc.
Qed.

Lemma contains_join (c sep : ascii) (l : list string) :
  Ascii.eqb sep c = false ->
  Forall (fun n => contains c n = false) l ->
  contains c (join sep l) = false.
Proof.
  intros Hsep Hl. unfold join. induction Hl as [|n l Hn Hl IH]; simpl.
  - reflexivity.
  - destruct l as [|m l].
    + exact Hn.
    + rewrite contains_append, Hn; simpl. rewrite Hsep; simpl. exact IH.
Qed.

Lemma str_relative (f : flavour) (rel : list string) :
  rel <> [] -> str f (relative rel) = join (os_sep f) rel.
Proof.
  destruct rel; [congruence|reflexivity].
Qed.

Lemma walk_nonempty (n : node) (prefix rel : list string) :
  In rel (walk prefix n) -> rel <> [].
Proof.
  revert n prefix rel. fix IHn 1.
  intros [c|es|t|s] prefix rel H; simpl in H; try contradiction.
  apply in_app_or in H. destruct H as [H|H].
  - apply in_map_iff in H. destruct H as [e [<- _]].
    intros Habs. apply app_eq_nil in Habs. destruct Habs; discriminate.
  - induction es as [|[m c] es IHes]; simpl in H.
    + contradiction.
    + apply in_app_or in H. destruct H as [H|H].
      * exact (IHn c _ _ H).
      * exact (IHes H).
Qed.

Lemma rglob_relative_nonempty (fs : node) (root_dir : Path) (rel : list string) :
  In rel (rglob_relative fs root_dir) -> rel <> [].
Proof.
  unfold rglob_relative. destruct (stat fs root_dir) as [d|].
  - apply walk_nonempty.
  - contradiction.
Qed.

Lemma contains_str_relative_posix (rel : list string) :
  Forall (fun n => contains backslash n = false) rel ->
  contains backslash (str Posix (relative rel)) = false.
Proof.
  intros Hrel. destruct rel as [|n rel].
  - reflexivity.
  - rewrite str_relative by discriminate.
    apply contains_join; [reflexivity|exact Hrel].
Qed.

(** C7, as stated, fails: where the native separator is the backslash the
    relative path stored in an entry is written with backslashes. *)
Lemma windows_entry_keeps_backslash :
  exists files,
    gather_files_to_include no_rules_match_file Windows sample_fs sample_root_windows tt
    = Ok files /\
    In (entry_of sample_root_windows ["sub"; "file.txt"]) files /\
    contains backslash
      (str Windows (snd (entry_of sample_root_windows ["sub"; "file.txt"]))) = true /\
    str Windows (snd (entry_of sample_root_windows ["sub"; "file.txt"])) <> "sub/file.txt".
Proof.
  eexists. split; [apply gather_files_eq|].
  split; [vm_compute; tauto|]. split; [reflexivity|].
  vm_compute. discriminate.
Qed.

(** C7, amended.  The relative path of every emitted entry is the path
    object itself: its text is its components joined by the native
    separator, hence by forward slashes where that separator is the
    forward slash. *)
Theorem gather_entries_native_separator
        {PathSpec : Type} (match_file : PathSpec -> string -> bool)
        (f : flavour) (fs : node) (root_dir : Path) (spec : PathSpec) :
  exists files,
    gather_files_to_include match_file f fs root_dir spec = Ok files /\
    Forall (fun e =>
              str f (snd e) = join (os_sep f) (parts (snd e)) /\
              (os_sep f = slash -> str f (snd e) = join slash (parts (snd e))))
           files.
Proof.
  eexists. split; [apply gather_files_eq|].
  apply Forall_forall. intros e He.
  apply in_map_iff in He. destruct He as [rel [<- Hin]]; simpl.
  apply filter_In in Hin. destruct Hin as [Hin _].
  apply rglob_relative_nonempty in Hin.
  pose proof (str_relative f rel Hin) as Hstr.
  split; [exact Hstr|]. intros Hsep. rewrite <- Hsep. exact Hstr.
Qed.

Lemma gather_entries_native_separator_witness :
  os_sep Posix = slash /\
  exists files,
    gather_files_to_include no_rules_match_file Posix sample_fs sample_root tt = Ok files /\
    Forall (fun e => str Posix (snd e) = join slash (parts (snd e))) files.
Proof.
  split; [reflexivity|].
  destruct (gather_entries_native_separator no_rules_match_file Posix sample_fs
              sample_root tt) as [files [Hrun Hall]].
  exists files. split; [exact Hrun|].
  eapply Forall_impl; [|exact Hall].
  intros e [_ H]. apply H. reflexivity.
Defined.

(** C6, as stated, fails: where the separator is the forward slash a
    backslash inside a file name reaches the matcher untouched. *)
Lemma backslash_reaches_matcher :
  exists st,
    gather_run no_rules_match_file Posix backslash_fs sample_root tt = Ok st /\
    match_calls st = [String "a" (String backslash "b.txt")] /\
    existsb (contains backslash) (match_calls st) = true.
Proof.
  eexists. split; [apply gather_run_eq|]. split; reflexivity.
Qed.

(** C6, amended.  Every string handed to the matcher is the text of the
    relative path with each native separator replaced by a forward slash.
    It holds no backslash where the native separator is the backslash,
    and elsewhere as soon as no name below the root holds one. *)
Theorem matcher_input_normalized
        {PathSpec : Type} (match_file : PathSpec -> string -> bool)
        (f : flavour) (fs : node) (root_dir : Path) (spec : PathSpec) :
  exists st,
    gather_run match_file f fs root_dir spec = Ok st /\
    match_calls st =
      map (fun rel => replace (os_sep f) slash (str f (relative rel)))
          (filter (visited fs root_dir) (rglob_relative fs root_dir)) /\
    (os_sep f = backslash \/
     (forall rel, In rel (rglob_relative fs root_dir) ->
                  Forall (fun n => contains backslash n = false) rel) ->
     Forall (fun s => contains backslash s = false) (match_calls st)).
Proof.
  eexists. split; [apply gather_run_eq|]. split; [reflexivity|].
  intros H. cbn [match_calls]. apply Forall_forall. intros s Hs.
  apply in_map_iff in Hs. destruct Hs as [rel [<- Hin]].
  apply filter_In in Hin. destruct Hin as [Hin _].
  unfold relative_path_str.
  destruct H as [Hsep|Hnames].
  - rewrite Hsep. apply contains_replace. discriminate.
  - destruct f; simpl os_sep.
    + rewrite replace_same. apply contains_str_relative_posix. auto.
    + apply contains_replace. discriminate.
Qed.

Lemma matcher_input_normalized_witness :
  os_sep Windows = backslash /\
  exists st,
    gather_run no_rules_match_file Windows sample_fs sample_root_windows tt = Ok st /\
    Forall (fun s => contains backslash s = false) (match_calls st).
Proof.
  split; [reflexivity|].
  destruct (matcher_input_normalized no_rules_match_file Windows sample_fs
              sample_root_windows tt) as [st [Hrun [_ Hfree]]].
  exists st. split; [exact Hrun|].
  apply Hfree. left. reflexivity.
Defined.

(** ** Building the pattern set *)

Lemma concat_split_keepends (s : string) :
  String.concat EmptyString (split_keepends s) = s.
Proof.
  induction s as [|c t IH]; simpl.
  - reflexivity.
  - destruct (Ascii.eqb c LF).
    + destruct (split_keepends t) as [|l ls]; simpl in *.
      * rewrite <- IH. reflexivity.
      * rewrite IH. reflexivity.
    + destruct (split_keepends t) as [|l ls]; simpl in *.
      * rewrite <- IH. reflexivity.
      * destruct ls; simpl in *; rewrite <- IH; reflexivity.
Qed.

(** The lines [readlines] returns are the text of the file, cut up. *)
Lemma concat_readlines (content : string) :
  String.concat EmptyString (readlines content) = universal_newlines content.
Proof.
  apply concat_split_keepends.
Qed.

(** ** The driver *)



(** ** The matcher of the specification *)

Section MatcherFacts.

Import GitWildMatch.

Lemma rstrip_comment (t : string) :
  exists t', rstrip (String "#" t) = String "#" t'.
Proof.
  simpl. destruct (rstrip t) as [|c t'].
  - exists EmptyString. reflexivity.
  - eexists. reflexivity.
Qed.

Lemma parse_pattern_blank (line : string) :
  is_blank line = true -> parse_pattern line = None.
Proof.
  unfold is_blank, parse_pattern.
  destruct (rstrip line); [reflexivity|discriminate].
Qed.

Lemma parse_pattern_comment (line : string) :
  is_comment line = true -> parse_pattern line = None.
Proof.
  unfold is_comment. destruct line as [|c t]; [discriminate|].
  intros Hc. apply Ascii.eqb_eq in Hc. subst c.
  destruct (rstrip_comment t) as [t' Ht'].
  unfold parse_pattern. rewrite Ht'. reflexivity.
Qed.

Lemma from_lines_app (l1 l2 : list string) :
  from_lines (l1 ++ l2) = from_lines l1 ++ from_lines l2.
Proof.
  induction l1 as [|l l1 IH]; simpl.
  - reflexivity.
  - destruct (parse_pattern l); simpl; rewrite IH; reflexivity.
Qed.

Lemma from_lines_filter (lines : list string) :
  from_lines (filter (fun l => negb (is_blank l || is_comment l)) lines)
  = from_lines lines.
Proof.
  induction lines as [|l lines IH]; simpl.
  - reflexivity.
  - destruct (is_blank l) eqn:Hb; simpl.
    + rewrite (parse_pattern_blank l Hb). exact IH.
    + destruct (is_comment l) eqn:Hc; simpl.
      * rewrite (parse_pattern_comment l Hc). exact IH.
      * rewrite IH. reflexivity.
Qed.

(** One step of [matches]. *)
Let step (path : string) (isDirectory : bool) (excluded : bool) (p : Pattern) : bool :=
  if applies p path isDirectory then negb (negated p) else excluded.

Lemma matches_app (ps1 ps2 : PatternSet) (path : string) (isDirectory : bool) :
  matches (ps1 ++ ps2) path isDirectory =
  fold_left (step path isDirectory) ps2 (matches ps1 path isDirectory).
Proof.
  unfold matches. apply fold_left_app.
Qed.

Lemma excluded_stays (ps : PatternSet) (path : string) (isDirectory : bool) :
  (forall q, In q ps -> negated q = true -> applies q path isDirectory = false) ->
  fold_left (step path isDirectory) ps true = true.
Proof.
  induction ps as [|q ps IH]; intros H; simpl.
  - reflexivity.
  - assert (Hq : step path isDirectory true q = true).
    { unfold step. destruct (applies q path isDirectory) eqn:Ha; [|reflexivity].
      destruct (negated q) eqn:Hn; [|reflexivity].
      rewrite (H q (or_introl eq_refl) Hn) in Ha. discriminate. }
    rewrite Hq. apply IH. intros q' Hin. apply H. right. exact Hin.
Qed.

Lemma included_stays (ps : PatternSet) (path : string) (isDirectory : bool) :
  (forall q, In q ps -> negated q = false -> applies q path isDirectory = false) ->
  fold_left (step path isDirectory) ps false = false.
Proof.
  induction ps as [|q ps IH]; intros H; simpl.
  - reflexivity.
  - assert (Hq : step path isDirectory false q = false).
    { unfold step. destruct (applies q path isDirectory) eqn:Ha; [|reflexivity].
      destruct (negated q) eqn:Hn; [reflexivity|].
      rewrite (H q (or_introl eq_refl) Hn) in Ha. discriminate. }
    rewrite Hq. apply IH. intros q' Hin. apply H. right. exact Hin.
Qed.

(** A rule that names a directory applies to everything beneath it. *)
Lemma applies_from_beneath (p : Pattern) (dir : list string) :
  forall seen rest isDirectory,
    dir <> [] -> rest <> [] ->
    matches_entry p (seen ++ dir) = true ->
    applies_from p seen (dir ++ rest) isDirectory = true.
Proof.
  induction dir as [|x dir IH]; intros seen rest isDirectory Hdir Hrest Hm.
  - congruence.
  - destruct dir as [|y dir].
    + simpl. rewrite Hm.
      destruct rest; [congruence|]. simpl. rewrite orb_true_r. reflexivity.
    + change ((x :: y :: dir) ++ rest) with (x :: ((y :: dir) ++ rest)).
      cbn [applies_from]. rewrite (IH (seen ++ [x]) rest isDirectory).
      * apply orb_true_r.
      * discriminate.
      * exact Hrest.
      * rewrite <- app_assoc. exact Hm.
Qed.

Lemma matches_after_exclusion (ps1 ps2 : PatternSet) (d : Pattern)
      (path : string) (isDirectory : bool) :
  negated d = false ->
  applies d path isDirectory = true ->
  (forall q, In q ps2 -> negated q = true -> applies q path isDirectory = false) ->
  matches (ps1 ++ d :: ps2) path isDirectory = true.
Proof.
  intros Hn Ha Hlater. rewrite matches_app. simpl.
  replace (step path isDirectory (matches ps1 path isDirectory) d) with true.
  - apply excluded_stays. exact Hlater.
  - unfold step. rewrite Ha, Hn. reflexivity.
Qed.

End MatcherFacts.

(** C3.  A blank line and a line beginning with [#] give no pattern, so
    the built pattern set is the one built from the remaining lines of the
    ignore file, followed by the default patterns. *)
Theorem blank_and_comment_lines_give_no_pattern :
  (forall line,
      GitWildMatch.is_blank line = true \/ GitWildMatch.is_comment line = true ->
      GitWildMatch.parse_pattern line = None) /\
  (forall fs root_dir,
      GitWildMatch.build fs root_dir =
      GitWildMatch.from_lines
        (filter (fun l => negb (GitWildMatch.is_blank l || GitWildMatch.is_comment l))
                (patterns fs root_dir))
      ++ GitWildMatch.from_lines default_ignores).
Proof.
  split.
  - intros line [H|H].
    + apply parse_pattern_blank. exact H.
    + apply parse_pattern_comment. exact H.
  - intros fs root_dir. unfold GitWildMatch.build, load_gitignore.
    rewrite from_lines_app, from_lines_filter. reflexivity.
Qed.

Lemma blank_and_comment_lines_give_no_pattern_witness :
  GitWildMatch.is_comment (String "#" (String " " (String "x" (String LF EmptyString))))
  = true /\
  GitWildMatch.parse_pattern (String "#" (String " " (String "x" (String LF EmptyString))))
  = None /\
  GitWildMatch.is_blank (String " " (String LF EmptyString)) = true /\
  GitWildMatch.parse_pattern (String " " (String LF EmptyString)) = None /\
  map GitWildMatch.segments (GitWildMatch.build ignore_fs sample_root) =
  [["*.log"]; ["build"]; ["keep.txt"]; [".git"]; ["__pycache__"]; ["*.pyc"];
   [".DS_Store"]].
Proof.
  destruct blank_and_comment_lines_give_no_pattern as [Hline Hbuild].
  split; [reflexivity|].
  split; [apply Hline; right; reflexivity|].
  split; [reflexivity|].
  split; [apply Hline; left; reflexivity|].
  rewrite Hbuild. reflexivity.
Defined.

(** C4, as stated, fails: the pattern set built for [ignore_fs] holds the
    directory rule [build/], [build/keep.txt] lies beneath the directory
    it names, and yet the later [!keep.txt] clears the exclusion and the
    file is gathered. *)
Lemma negation_after_directory_rule_reincludes :
  (exists d,
      In d (GitWildMatch.build ignore_fs sample_root) /\
      GitWildMatch.directory_only d = true /\
      GitWildMatch.negated d = false /\
      GitWildMatch.matches_entry d ["build"] = true) /\
  GitWildMatch.split slash "build/keep.txt" = ["build"] ++ ["keep.txt"] /\
  GitWildMatch.matches (GitWildMatch.build ignore_fs sample_root) "build/keep.txt" false
  = false /\
  exists files,
    GitWildMatch.gather Posix ignore_fs sample_root
      (GitWildMatch.build ignore_fs sample_root) = Ok files /\
    In (entry_of sample_root ["build"; "keep.txt"]) files.
Proof.
  split.
  - exists (GitWildMatch.mkPattern (String.append "build/" (String LF EmptyString))
                                   false false true ["build"]).
    split; [vm_compute; tauto|]. repeat split; reflexivity.
  - repeat (split; [reflexivity|]).
    eexists. split; [apply gather_files_eq|].
    vm_compute. tauto.
Qed.

(** C4, amended.  A file beneath a directory named by a directory-only
    rule is excluded, and so absent from the gathered list, as long as no
    negated rule placed after that rule applies to the file. *)
Theorem directory_rule_excludes_beneath
        (ps1 ps2 : GitWildMatch.PatternSet) (d : GitWildMatch.Pattern)
        (path : string) (dir rest : list string) :
  GitWildMatch.directory_only d = true ->
  GitWildMatch.negated d = false ->
  GitWildMatch.split slash path = dir ++ rest ->
  dir <> [] -> rest <> [] ->
  GitWildMatch.matches_entry d dir = true ->
  (forall q, In q ps2 -> GitWildMatch.negated q = true ->
             GitWildMatch.applies q path false = false) ->
  GitWildMatch.matches (ps1 ++ d :: ps2) path false = true /\
  forall f fs root_dir rel,
    relative_path_str f (relative rel) = path ->
    exists files,
      GitWildMatch.gather f fs root_dir (ps1 ++ d :: ps2) = Ok files /\
      ~ In (entry_of root_dir rel) files.
Proof.
  intros _ Hn Hsplit Hdir Hrest Hm Hlater.
  assert (Hmatch : GitWildMatch.matches (ps1 ++ d :: ps2) path false = true).
  { apply matches_after_exclusion; [exact Hn| |exact Hlater].
    unfold GitWildMatch.applies. rewrite Hsplit.
    apply applies_from_beneath; assumption. }
  split; [exact Hmatch|].
  intros f fs root_dir rel Hrel.
  eexists. split; [apply gather_files_eq|].
  rewrite in_entries, filter_In. intros [_ Hk].
  unfold kept in Hk. apply andb_true_iff in Hk. destruct Hk as [_ Hk].
  rewrite Hrel in Hk. unfold GitWildMatch.match_file in Hk.
  rewrite Hmatch in Hk. discriminate.
Qed.

Lemma directory_rule_excludes_beneath_witness :
  GitWildMatch.matches ([txt_rule] ++ build_rule :: [txt_rule]) "build/sub/out.log" false
  = true /\
  exists files,
    GitWildMatch.gather Posix ignore_fs sample_root
      ([txt_rule] ++ build_rule :: [txt_rule]) = Ok files /\
    ~ In (entry_of sample_root ["build"; "sub"; "out.log"]) files.
Proof.
  assert (Hlater : forall q, In q [txt_rule] -> GitWildMatch.negated q = true ->
                             GitWildMatch.applies q "build/sub/out.log" false = false).
  { intros q [<-|[]] Hn. discriminate. }
  destruct (directory_rule_excludes_beneath [txt_rule] [txt_rule] build_rule
              "build/sub/out.log" ["build"] ["sub"; "out.log"]
              eq_refl eq_refl eq_refl
              ltac:(discriminate) ltac:(discriminate) eq_refl Hlater)
    as [Hmatch Hgather].
  split; [exact Hmatch|].
  apply (Hgather Posix ignore_fs sample_root ["build"; "sub"; "out.log"]).
  reflexivity.
Defined.

(** C5, as stated, fails in its exception: [build/keep.txt] lies inside
    the directory excluded by [build/], is matched by [*.txt] and by the
    later [!keep.txt], and is re-included all the same. *)
Lemma negation_inside_excluded_directory_reincludes :
  GitWildMatch.from_lines ["build/"; "*.txt"; "!keep.txt"]
  = [build_rule; txt_rule; keep_rule] /\
  GitWildMatch.applies build_rule "build/keep.txt" false = true /\
  GitWildMatch.applies txt_rule "build/keep.txt" false = true /\
  GitWildMatch.applies keep_rule "build/keep.txt" false = true /\
  GitWildMatch.matches [build_rule; txt_rule; keep_rule] "build/keep.txt" false = false.
Proof.
  repeat split; reflexivity.
Qed.

(** C5, amended.  A path to which a negated rule applies is re-included
    whenever no excluding rule placed after that rule applies to it,
    whatever the rules before it excluded: a broader pattern, or a
    directory the path lies in. *)
Theorem later_negation_reincludes
        (ps1 ps2 : GitWildMatch.PatternSet) (n : GitWildMatch.Pattern)
        (path : string) (isDirectory : bool) :
  GitWildMatch.negated n = true ->
  GitWildMatch.applies n path isDirectory = true ->
  (forall q, In q ps2 -> GitWildMatch.negated q = false ->
             GitWildMatch.applies q path isDirectory = false) ->
  GitWildMatch.matches (ps1 ++ n :: ps2) path isDirectory = false.
Proof.
  intros Hn Ha Hlater. rewrite matches_app. simpl.
  rewrite Ha, Hn. simpl. apply included_stays. exact Hlater.
Qed.

Lemma later_negation_reincludes_witness :
  GitWildMatch.matches [txt_rule] "keep.txt" false = true /\
  GitWildMatch.matches ([txt_rule] ++ keep_rule :: []) "keep.txt" false = false /\
  GitWildMatch.matches ([build_rule; txt_rule] ++ keep_rule :: []) "build/keep.txt" false
  = false.
Proof.
  split; [reflexivity|]. split.
  - apply (later_negation_reincludes [txt_rule] [] keep_rule "keep.txt" false);
      [reflexivity|reflexivity|].
    intros q [].
  - apply (later_negation_reincludes [build_rule; txt_rule] [] keep_rule
             "build/keep.txt" false); [reflexivity|reflexivity|].
    intros q [].
Defined.

(** * Further properties *)

(** ** The tree and its traversal *)

Lemma node_entries_ind (P : node -> Prop) :
  (forall c, P (File c)) ->
  (forall es, Forall (fun e => P (snd e)) es -> P (Dir es)) ->
  (forall t, P (Symlink t)) ->
  (forall s, P (Special s)) ->
  forall n, P n.
Proof.
  intros HF HD HL HS. fix IH 1.
  intros [c|es|t|s]; [apply HF| |apply HL|apply HS].
  apply HD. induction es as [|[m c] es IHes]; constructor.
  - exact (IH c).
  - exact IHes.
Qed.

Lemma walk_Dir (prefix : list string) (es : list (string * node)) :
  walk prefix (Dir es) =
  map (fun e => prefix ++ [fst e]) es ++
  flat_map (fun e => walk (prefix ++ [fst e]) (snd e)) es.
Proof.
  cbn [walk]. f_equal.
  induction es as [|[m c] es IH]; [reflexivity|].
  cbn [flat_map fst snd]. rewrite <- IH. reflexivity.
Qed.

Lemma lookup_app (n : node) (ps qs : list string) :
  lookup n (ps ++ qs) =
  match lookup n ps with
  | Some d => lookup d qs
  | None => None
  end.
Proof.
  revert n. induction ps as [|p ps IH]; intros n; simpl.
  - reflexivity.
  - destruct n as [c|es|t|s]; try reflexivity.
    destruct (find_entry p es) as [c|]; [apply IH|reflexivity].
Qed.

Lemma find_entry_In (m : string) (es : list (string * node)) (c : node) :
  find_entry m es = Some c -> In (m, c) es.
Proof.
  induction es as [|[m' c'] es IH]; simpl; [discriminate|].
  destruct (String.eqb m' m) eqn:Hm.
  - intros H. inversion H; subst. apply String.eqb_eq in Hm. subst. left. reflexivity.
  - intros H. right. exact (IH H).
Qed.

(** Whatever [lookup] reaches below a directory, the traversal lists. *)
Lemma walk_complete (rel : list string) :
  forall (n x : node) (prefix : list string),
    rel <> [] -> lookup n rel = Some x -> In (prefix ++ rel) (walk prefix n).
Proof.
  induction rel as [|p ps IH]; intros n x prefix Hne Hl; [congruence|].
  simpl in Hl. destruct n as [c|es|t|s]; try discriminate.
  destruct (find_entry p es) as [c|] eqn:Hf; [|discriminate].
  apply find_entry_In in Hf. rewrite walk_Dir. apply in_or_app.
  destruct ps as [|q ps].
  - left. apply in_map_iff. exists (p, c). split; [reflexivity|exact Hf].
  - right. apply in_flat_map. exists (p, c). split; [exact Hf|].
    cbn [fst snd].
    replace (prefix ++ p :: q :: ps) with ((prefix ++ [p]) ++ q :: ps)
      by (rewrite <- app_assoc; reflexivity).
    apply (IH c x); [discriminate|exact Hl].
Qed.

Lemma stat_child (fs : node) (root_dir : Path) (rel : list string) :
  stat fs (child root_dir rel) =
  match stat fs root_dir with
  | Some d => lookup d rel
  | None => None
  end.
Proof.
  unfold stat, child; simpl. apply lookup_app.
Qed.

Lemma is_file_in_rglob (fs : node) (root_dir : Path) (rel : list string) :
  rel <> [] -> is_file fs (child root_dir rel) = true ->
  In rel (rglob_relative fs root_dir).
Proof.
  intros Hne Hf. unfold is_file in Hf. rewrite stat_child in Hf.
  unfold rglob_relative. destruct (stat fs root_dir) as [d|]; [|discriminate].
  destruct (lookup d rel) as [x|] eqn:Hl; [|discriminate].
  exact (walk_complete rel d x [] Hne Hl).
Qed.

(** ** Lists *)

Lemma filter_map_swap {A B : Type} (g : A -> B) (q : B -> bool) (l : list A) :
  filter q (map g l) = map g (filter (fun x => q (g x)) l).
Proof.
  induction l as [|x l IH]; simpl; [reflexivity|].
  destruct (q (g x)); simpl; rewrite IH; reflexivity.
Qed.

Lemma filter_twice {A : Type} (p q : A -> bool) (l : list A) :
  filter q (filter p l) = filter (fun x => p x && q x) l.
Proof.
  induction l as [|x l IH]; simpl; [reflexivity|].
  destruct (p x); simpl; [destruct (q x)|]; rewrite IH; reflexivity.
Qed.

Lemma filter_length_le {A : Type} (p q : A -> bool) (l : list A) :
  (forall x, p x = true -> q x = true) ->
  length (filter p l) <= length (filter q l).
Proof.
  intros Hpq. induction l as [|x l IH]; simpl; [lia|].
  destruct (p x) eqn:Hp.
  - rewrite (Hpq x Hp). simpl. lia.
  - destruct (q x); simpl; lia.
Qed.

Lemma flat_map_map {A B C : Type} (g : B -> list C) (h : A -> B) (l : list A) :
  flat_map g (map h l) = flat_map (fun x => g (h x)) l.
Proof.
  induction l as [|x l IH]; simpl; [reflexivity|]. rewrite IH. reflexivity.
Qed.

Lemma flat_map_ext_In {A B : Type} (g h : A -> list B) (l : list A) :
  (forall x, In x l -> g x = h x) -> flat_map g l = flat_map h l.
Proof.
  intros H. induction l as [|x l IH]; simpl; [reflexivity|].
  rewrite (H x (or_introl eq_refl)), IH; [reflexivity|].
  intros y Hy. apply H. right. exact Hy.
Qed.

Lemma NoDup_append {A : Type} (l1 l2 : list A) :
  NoDup l1 -> NoDup l2 -> (forall a, In a l1 -> ~ In a l2) -> NoDup (l1 ++ l2).
Proof.
  intros H1 H2 Hd. induction H1 as [|x l1 Hx H1 IH]; simpl; [exact H2|].
  constructor.
  - intros Hin. apply in_app_or in Hin. destruct Hin as [Hin|Hin].
    + exact (Hx Hin).
    + exact (Hd x (or_introl eq_refl) Hin).
  - apply IH. intros a Ha. apply Hd. right. exact Ha.
Qed.

Lemma NoDup_map_injective {A B : Type} (g : A -> B) (l : list A) :
  (forall x y, g x = g y -> x = y) -> NoDup l -> NoDup (map g l).
Proof.
  intros Hg Hl. induction Hl as [|x l Hx Hl IH]; simpl; constructor.
  - intros Hin. apply in_map_iff in Hin. destruct Hin as [y [Hy Hin]].
    apply Hg in Hy. subst y. exact (Hx Hin).
  - exact IH.
Qed.

(** ** Distinct names *)

Lemma names_distinct_NoDup (l : list string) :
  names_distinct l = true -> NoDup l.
Proof.
  induction l as [|x l IH]; simpl; intros H; constructor.
  - apply andb_true_iff in H. destruct H as [H _].
    apply negb_true_iff in H. intros Hin.
    assert (Ht : existsb (String.eqb x) l = true).
    { apply existsb_exists. exists x. split; [exact Hin|apply String.eqb_refl]. }
    congruence.
  - apply andb_true_iff in H. destruct H as [_ H]. exact (IH H).
Qed.

Lemma distinct_names_Dir (es : list (string * node)) :
  distinct_names (Dir es) =
  names_distinct (map fst es) && forallb (fun e => distinct_names (snd e)) es.
Proof.
  cbn [distinct_names]. f_equal.
  induction es as [|[m c] es IH]; [reflexivity|].
  cbn [forallb snd]. rewrite <- IH. reflexivity.
Qed.

Lemma distinct_names_lookup (ps : list string) :
  forall n d, distinct_names n = true -> lookup n ps = Some d ->
              distinct_names d = true.
Proof.
  induction ps as [|p ps IH]; intros n d Hn Hl; simpl in Hl.
  - inversion Hl; subst. exact Hn.
  - destruct n as [c|es|t|s]; try discriminate.
    destruct (find_entry p es) as [c|] eqn:Hf; [|discriminate].
    apply find_entry_In in Hf.
    rewrite distinct_names_Dir in Hn. apply andb_true_iff in Hn.
    destruct Hn as [_ Hn]. rewrite forallb_forall in Hn.
    exact (IH c d (Hn _ Hf) Hl).
Qed.

Lemma walk_prefix (n : node) :
  forall prefix rel, In rel (walk prefix n) ->
                     exists rest, rest <> [] /\ rel = prefix ++ rest.
Proof.
  induction n as [c|es IH|t|s] using node_entries_ind;
    intros prefix rel H; try contradiction.
  rewrite walk_Dir in H. apply in_app_or in H. destruct H as [H|H].
  - apply in_map_iff in H. destruct H as [e [<- _]].
    exists [fst e]. split; [discriminate|reflexivity].
  - apply in_flat_map in H. destruct H as [e [He H]].
    rewrite Forall_forall in IH.
    destruct (IH e He _ _ H) as [rest [_ ->]].
    exists (fst e :: rest). split; [discriminate|].
    rewrite <- app_assoc. reflexivity.
Qed.

Lemma walk_NoDup (n : node) :
  forall prefix, distinct_names n = true -> NoDup (walk prefix n).
Proof.
  induction n as [c|es IH|t|s] using node_entries_ind;
    intros prefix Hn; try constructor.
  rewrite walk_Dir. rewrite distinct_names_Dir in Hn.
  apply andb_true_iff in Hn. destruct Hn as [Hnames Hbelow].
  apply names_distinct_NoDup in Hnames.
  apply NoDup_append.
  - rewrite <- (map_map fst (fun m => prefix ++ [m])).
    apply NoDup_map_injective; [|exact Hnames].
    intros x y Hxy. apply app_inv_head in Hxy. congruence.
  - clear - IH Hnames Hbelow.
    induction es as [|[m c] es IHes]; [constructor|].
    cbn [flat_map fst snd].
    inversion IH as [|? ? IHc IHrest]; subst.
    cbn [forallb snd] in Hbelow. apply andb_true_iff in Hbelow.
    destruct Hbelow as [Hc Hrest].
    cbn [map fst] in Hnames. inversion Hnames as [|? ? Hm Hnames']; subst.
    apply NoDup_append.
    + apply IHc. exact Hc.
    + apply IHes; assumption.
    + intros a Ha Hb.
      apply walk_prefix in Ha. destruct Ha as [r1 [_ ->]].
      apply in_flat_map in Hb. destruct Hb as [e [He Hb]].
      apply walk_prefix in Hb. destruct Hb as [r2 [_ Heq]].
      rewrite <- !app_assoc in Heq. apply app_inv_head in Heq.
      simpl in Heq. inversion Heq; subst.
      apply Hm. apply in_map. exact He.
  - intros a Ha Hb.
    apply in_map_iff in Ha. destruct Ha as [e [<- _]].
    apply in_flat_map in Hb. destruct Hb as [e' [_ Hb]].
    apply walk_prefix in Hb. destruct Hb as [r [Hr Heq]].
    rewrite <- app_assoc in Heq. apply app_inv_head in Heq.
    simpl in Heq. inversion Heq; subst. congruence.
Qed.

Lemma rglob_relative_NoDup (fs : node) (root_dir : Path) :
  distinct_names fs = true -> NoDup (rglob_relative fs root_dir).
Proof.
  intros Hfs. unfold rglob_relative.
  destruct (stat fs root_dir) as [d|] eqn:Hs; [|constructor].
  apply walk_NoDup. exact (distinct_names_lookup _ _ _ Hfs Hs).
Qed.

(** X2.  When no directory of the snapshot lists a name twice, the walk
    returns no entry twice: the pairs, their full paths and their
    relative paths are each without repetition. *)
Theorem gather_no_duplicates
        {PathSpec : Type} (match_file : PathSpec -> string -> bool)
        (f : flavour) (fs : node) (root_dir : Path) (spec : PathSpec) :
  distinct_names fs = true ->
  exists files,
    gather_files_to_include match_file f fs root_dir spec = Ok files /\
    NoDup files /\ NoDup (map fst files) /\ NoDup (map snd files).
Proof.
  intros Hfs. eexists. split; [apply gather_files_eq|].
  pose proof (NoDup_filter (kept match_file f fs root_dir spec)
                (rglob_relative_NoDup fs root_dir Hfs)) as Hnd.
  split; [|split].
  - apply NoDup_map_injective; [|exact Hnd].
    intros x y Hxy. unfold entry_of, relative in Hxy. congruence.
  - rewrite map_map. apply NoDup_map_injective; [|exact Hnd].
    intros x y Hxy. unfold entry_of, child in Hxy. simpl in Hxy.
    inversion Hxy as [Happ]. exact (app_inv_head _ _ _ Happ).
  - rewrite map_map. apply NoDup_map_injective; [|exact Hnd].
    intros x y Hxy. unfold entry_of, relative in Hxy. simpl in Hxy. congruence.
Qed.

Lemma gather_no_duplicates_witness :
  distinct_names sample_fs = true /\
  exists files,
    gather_files_to_include no_rules_match_file Posix sample_fs sample_root tt = Ok files /\
    NoDup files.
Proof.
  split; [reflexivity|].
  destruct (gather_no_duplicates no_rules_match_file Posix sample_fs sample_root tt
              eq_refl) as [files [Hrun [Hnd _]]].
  exists files. split; [exact Hrun|exact Hnd].
Defined.

(** ** Contents *)

Lemma erase_Dir (es : list (string * node)) :
  erase (Dir es) = Dir (map (fun e => (fst e, erase (snd e))) es).
Proof.
  cbn [erase]. f_equal.
  induction es as [|[m c] es IH]; [reflexivity|].
  cbn [map fst snd]. rewrite <- IH. reflexivity.
Qed.

Lemma walk_erase (n : node) :
  forall prefix, walk prefix (erase n) = walk prefix n.
Proof.
  induction n as [c|es IH|t|s] using node_entries_ind; intros prefix;
    try reflexivity.
  - rewrite erase_Dir, !walk_Dir, map_map. cbn [fst]. f_equal.
    rewrite flat_map_map. cbn [fst snd]. rewrite Forall_forall in IH.
    apply flat_map_ext_In. intros e He. apply IH. exact He.
  - destruct t; reflexivity.
Qed.

Lemma find_entry_erase (p : string) (es : list (string * node)) :
  find_entry p (map (fun e => (fst e, erase (snd e))) es) =
  option_map erase (find_entry p es).
Proof.
  induction es as [|[m c] es IH]; simpl; [reflexivity|].
  destruct (String.eqb m p); [reflexivity|exact IH].
Qed.

Lemma lookup_erase (ps : list string) :
  forall n, lookup (erase n) ps = option_map erase (lookup n ps).
Proof.
  induction ps as [|p ps IH]; intros n; [reflexivity|].
  destruct n as [c|es|t|s]; try reflexivity.
  - rewrite erase_Dir. cbn [lookup]. rewrite find_entry_erase.
    destruct (find_entry p es) as [c|]; simpl; [apply IH|reflexivity].
  - destruct t; reflexivity.
Qed.

Lemma is_file_erase (fs : node) (p : Path) :
  is_file (erase fs) p = is_file fs p.
Proof.
  unfold is_file, stat. rewrite lookup_erase.
  destruct (lookup fs (parts p)) as [[c|es|[c| | | ]|s]|]; reflexivity.
Qed.

Lemma rglob_relative_erase (fs : node) (root_dir : Path) :
  rglob_relative (erase fs) root_dir = rglob_relative fs root_dir.
Proof.
  unfold rglob_relative, stat. rewrite lookup_erase.
  destruct (lookup fs (parts root_dir)) as [d|]; simpl; [apply walk_erase|reflexivity].
Qed.

Lemma gather_run_erase
      {PathSpec : Type} (match_file : PathSpec -> string -> bool)
      (f : flavour) (fs : node) (root_dir : Path) (spec : PathSpec) :
  gather_run match_file f (erase fs) root_dir spec =
  gather_run match_file f fs root_dir spec.
Proof.
  rewrite !gather_run_eq, rglob_relative_erase. f_equal. f_equal.
  - f_equal. apply filter_ext. intros rel. unfold kept, visited.
    rewrite is_file_erase. reflexivity.
  - f_equal. apply filter_ext. intros rel. unfold visited.
    apply is_file_erase.
Qed.

(** X3.  The walk reads no file: two snapshots that differ only in the
    text of their files give the same entries and hand the same strings
    to the matcher. *)
Theorem gather_ignores_contents
        {PathSpec : Type} (match_file : PathSpec -> string -> bool)
        (f : flavour) (fs1 fs2 : node) (root_dir : Path) (spec : PathSpec) :
  erase fs1 = erase fs2 ->
  gather_run match_file f fs1 root_dir spec = gather_run match_file f fs2 root_dir spec /\
  gather_files_to_include match_file f fs1 root_dir spec =
  gather_files_to_include match_file f fs2 root_dir spec.
Proof.
  intros He.
  assert (Hrun : gather_run match_file f fs1 root_dir spec =
                 gather_run match_file f fs2 root_dir spec).
  { rewrite <- (gather_run_erase match_file f fs1), <- (gather_run_erase match_file f fs2).
    rewrite He. reflexivity. }
  split; [exact Hrun|].
  unfold gather_files_to_include. rewrite Hrun. reflexivity.
Qed.

Lemma gather_ignores_contents_witness :
  erase ignore_fs = erase ignore_fs_crlf /\
  gather_files_to_include only_path_match_file Posix ignore_fs sample_root "a.py" =
  gather_files_to_include only_path_match_file Posix ignore_fs_crlf sample_root "a.py".
Proof.
  split; [reflexivity|].
  apply (gather_ignores_contents only_path_match_file Posix ignore_fs ignore_fs_crlf
           sample_root "a.py").
  reflexivity.
Defined.

(** ** More rules, fewer files *)

(** X4.  A pattern set that matches at least what another one matches
    gives a result that is the other result with the newly matched
    entries filtered out: no entry is added and the order is kept. *)
Theorem gather_antitone
        {PathSpec1 PathSpec2 : Type}
        (match_file1 : PathSpec1 -> string -> bool)
        (match_file2 : PathSpec2 -> string -> bool)
        (f : flavour) (fs : node) (root_dir : Path)
        (spec1 : PathSpec1) (spec2 : PathSpec2) :
  (forall path, match_file1 spec1 path = true -> match_file2 spec2 path = true) ->
  exists files1 files2,
    gather_files_to_include match_file1 f fs root_dir spec1 = Ok files1 /\
    gather_files_to_include match_file2 f fs root_dir spec2 = Ok files2 /\
    files2 =
      filter (fun e => negb (match_file2 spec2 (replace (os_sep f) slash (str f (snd e)))))
             files1 /\
    incl files2 files1.
Proof.
  intros Hsub. do 2 eexists.
  split; [apply gather_files_eq|]. split; [apply gather_files_eq|].
  assert (Heq : map (entry_of root_dir)
                    (filter (kept match_file2 f fs root_dir spec2)
                            (rglob_relative fs root_dir)) =
                filter (fun e => negb (match_file2 spec2
                                         (replace (os_sep f) slash (str f (snd e)))))
                       (map (entry_of root_dir)
                            (filter (kept match_file1 f fs root_dir spec1)
                                    (rglob_relative fs root_dir)))).
  { rewrite filter_map_swap, filter_twice. f_equal.
    apply filter_ext. intros rel. unfold kept, relative_path_str. cbn [entry_of snd].
    destruct (visited fs root_dir rel); [|reflexivity]. simpl.
    destruct (match_file1 spec1 _) eqn:H1; simpl.
    - rewrite (Hsub _ H1). reflexivity.
    - reflexivity. }
  split; [exact Heq|].
  rewrite Heq. intros e He. apply filter_In in He. tauto.
Qed.

Lemma gather_antitone_witness :
  exists files1 files2,
    gather_files_to_include no_rules_match_file Posix sample_fs sample_root tt = Ok files1 /\
    gather_files_to_include only_path_match_file Posix sample_fs sample_root "a.py"
    = Ok files2 /\
    incl files2 files1.
Proof.
  assert (Hsub : forall path, no_rules_match_file tt path = true ->
                              only_path_match_file "a.py" path = true)
    by (intros path H; discriminate).
  destruct (gather_antitone no_rules_match_file only_path_match_file Posix sample_fs
              sample_root tt "a.py" Hsub) as [files1 [files2 [H1 [H2 [_ Hincl]]]]].
  exists files1, files2. repeat split; assumption.
Defined.

(** X5.  The walk never prunes: it hands the matcher one string for
    every entry of the traversal that passes [is_file], whatever the
    matcher answers, so the strings tested are the same for any two
    pattern sets; the entries kept are at most as many. *)
Theorem walk_tests_every_file
        {PathSpec1 PathSpec2 : Type}
        (match_file1 : PathSpec1 -> string -> bool)
        (match_file2 : PathSpec2 -> string -> bool)
        (f : flavour) (fs : node) (root_dir : Path)
        (spec1 : PathSpec1) (spec2 : PathSpec2) :
  exists st1 st2,
    gather_run match_file1 f fs root_dir spec1 = Ok st1 /\
    gather_run match_file2 f fs root_dir spec2 = Ok st2 /\
    match_calls st1 = match_calls st2 /\
    length (match_calls st1) =
      length (filter (fun rel => is_file fs (child root_dir rel))
                     (rglob_relative fs root_dir)) /\
    length (files_to_include st1) <= length (match_calls st1).
Proof.
  do 2 eexists.
  split; [apply gather_run_eq|]. split; [apply gather_run_eq|].
  cbn [match_calls files_to_include].
  split; [reflexivity|]. split.
  - rewrite length_map. reflexivity.
  - rewrite !length_map. apply filter_length_le.
    intros rel Hk. unfold kept in Hk. apply andb_true_iff in Hk. tauto.
Qed.

(** ** A root that is no directory *)



(** ** The two flavours *)

Lemma replace_append (a b : ascii) (s t : string) :
  replace a b (s ++ t) = (replace a b s ++ replace a b t)%string.
Proof.
  induction s as [|c s IH]; simpl; [reflexivity|]. rewrite IH. reflexivity.
Qed.

Lemma replace_absent (a b : ascii) (s : string) :
  contains a s = false -> replace a b s = s.
Proof.
  induction s as [|c s IH]; simpl; [reflexivity|].
  intros H. apply orb_false_iff in H. destruct H as [Hc Hs].
  rewrite Hc, (IH Hs). reflexivity.
Qed.

Lemma replace_join (a b : ascii) (l : list string) :
  Forall (fun n => contains a n = false) l ->
  replace a b (join a l) = join b l.
Proof.
  unfold join. intros Hl. induction Hl as [|n l Hn Hl IH]; [reflexivity|].
  destruct l as [|m l].
  - simpl. apply replace_absent. exact Hn.
  - change (String.concat (String a EmptyString) (n :: m :: l))
      with (n ++ String a (String.concat (String a EmptyString) (m :: l)))%string.
    change (String.concat (String b EmptyString) (n :: m :: l))
      with (n ++ String b (String.concat (String b EmptyString) (m :: l)))%string.
    rewrite replace_append, (replace_absent _ _ _ Hn).
    cbn [replace]. rewrite Ascii.eqb_refl, IH. reflexivity.
Qed.

Lemma relative_path_str_flavours (rel : list string) :
  rel <> [] ->
  Forall (fun n => contains backslash n = false) rel ->
  relative_path_str Windows (relative rel) = relative_path_str Posix (relative rel).
Proof.
  intros Hne Hrel. unfold relative_path_str.
  rewrite !str_relative by exact Hne. cbn [os_sep].
  rewrite replace_same. apply replace_join. exact Hrel.
Qed.

(** X7.  When no name below the root holds a backslash, the walk hands
    the matcher the same strings and keeps the same relative paths under
    both flavours. *)
Theorem gather_same_on_both_flavours
        {PathSpec : Type} (match_file : PathSpec -> string -> bool)
        (fs : node) (root_w root_p : Path) (spec : PathSpec) :
  parts root_w = parts root_p ->
  (forall rel, In rel (rglob_relative fs root_p) ->
               Forall (fun n => contains backslash n = false) rel) ->
  exists st_w st_p,
    gather_run match_file Windows fs root_w spec = Ok st_w /\
    gather_run match_file Posix fs root_p spec = Ok st_p /\
    match_calls st_w = match_calls st_p /\
    map snd (files_to_include st_w) = map snd (files_to_include st_p).
Proof.
  intros Hparts Hnames. do 2 eexists.
  split; [apply gather_run_eq|]. split; [apply gather_run_eq|].
  cbn [match_calls files_to_include].
  assert (Hrels : rglob_relative fs root_w = rglob_relative fs root_p)
    by (unfold rglob_relative, stat; rewrite Hparts; reflexivity).
  assert (Hvis : forall rel, visited fs root_w rel = visited fs root_p rel)
    by (intros rel; unfold visited, is_file, stat, child; simpl;
        rewrite Hparts; reflexivity).
  assert (Hstr : forall rel, In rel (rglob_relative fs root_p) ->
                             relative_path_str Windows (relative rel) =
                             relative_path_str Posix (relative rel)).
  { intros rel Hin. apply relative_path_str_flavours.
    - exact (rglob_relative_nonempty _ _ _ Hin).
    - exact (Hnames rel Hin). }
  rewrite Hrels. split.
  - rewrite (filter_ext _ _ Hvis). apply map_ext_in.
    intros rel Hin. apply filter_In in Hin. apply Hstr. tauto.
  - rewrite !map_map. cbn [entry_of snd]. f_equal.
    apply filter_ext_in. intros rel Hin. unfold kept.
    rewrite Hvis, (Hstr rel Hin). reflexivity.
Qed.

Lemma gather_same_on_both_flavours_witness :
  exists st_w st_p,
    gather_run only_path_match_file Windows sample_fs sample_root_windows "sub/file.txt"
    = Ok st_w /\
    gather_run only_path_match_file Posix sample_fs sample_root "sub/file.txt" = Ok st_p /\
    match_calls st_w = match_calls st_p /\
    map snd (files_to_include st_w) = map snd (files_to_include st_p).
Proof.
  apply (gather_same_on_both_flavours only_path_match_file sample_fs
           sample_root_windows sample_root "sub/file.txt").
  - reflexivity.
  - intros rel Hin. vm_compute in Hin.
    repeat (destruct Hin as [<-|Hin]; [repeat constructor|]).
    contradiction.
Defined.

(** ** The lines of the ignore file *)

Lemma universal_newlines_cons (c : ascii) (t : string) :
  universal_newlines (String c t) =
  if Ascii.eqb c CR then
    match t with
    | String d _ =>
        if Ascii.eqb d LF then universal_newlines t
        else String LF (universal_newlines t)
    | EmptyString => nl
    end
  else String c (universal_newlines t).
Proof.
  cbn [universal_newlines]. destruct (Ascii.eqb c CR); [|reflexivity].
  destruct t as [|d r]; [reflexivity|].
  destruct (Ascii.eqb d LF) eqn:Hd; [|reflexivity].
  apply Ascii.eqb_eq in Hd. subst d. reflexivity.
Qed.

Lemma universal_newlines_no_CR (s : string) :
  contains CR (universal_newlines s) = false.
Proof.
  induction s as [|c t IH]; [reflexivity|].
  rewrite universal_newlines_cons.
  destruct (Ascii.eqb c CR) eqn:Hc.
  - destruct t as [|d r]; [reflexivity|].
    destruct (Ascii.eqb d LF); [exact IH|].
    cbn [contains]. rewrite IH. reflexivity.
  - cbn [contains]. rewrite Hc, IH. reflexivity.
Qed.

Lemma universal_newlines_id (s : string) :
  contains CR s = false -> universal_newlines s = s.
Proof.
  induction s as [|c t IH]; [reflexivity|].
  cbn [contains]. intros H. apply orb_false_iff in H. destruct H as [Hc Ht].
  rewrite universal_newlines_cons, Hc, (IH Ht). reflexivity.
Qed.

Lemma universal_newlines_to_crlf (s : string) :
  contains CR s = false -> universal_newlines (to_crlf s) = s.
Proof.
  induction s as [|c t IH]; [reflexivity|].
  cbn [contains]. intros H. apply orb_false_iff in H. destruct H as [Hc Ht].
  cbn [to_crlf]. destruct (Ascii.eqb c LF) eqn:Hlf.
  - apply Ascii.eqb_eq in Hlf. subst c.
    rewrite universal_newlines_cons.
    change (Ascii.eqb CR CR) with true. cbv iota.
    change (Ascii.eqb LF LF) with true. cbv iota.
    rewrite universal_newlines_cons.
    change (Ascii.eqb LF CR) with false. cbv iota.
    rewrite (IH Ht). reflexivity.
  - rewrite universal_newlines_cons, Hc, (IH Ht). reflexivity.
Qed.

Lemma split_keepends_shape (s : string) :
  contains CR s = false ->
  forall pre l post,
    split_keepends s = pre ++ l :: post ->
    exists body,
      contains LF body = false /\ contains CR body = false /\
      (l = (body ++ nl)%string \/ (l = body /\ body <> EmptyString /\ post = [])).
Proof.
  induction s as [|c t IH]; intros Hcr pre l post Hs.
  - destruct pre; discriminate.
  - cbn [contains] in Hcr. apply orb_false_iff in Hcr. destruct Hcr as [Hc Ht].
    cbn [split_keepends] in Hs. destruct (Ascii.eqb c LF) eqn:Hlf.
    + destruct pre as [|x pre].
      * inversion Hs; subst. exists EmptyString.
        apply Ascii.eqb_eq in Hlf. subst c.
        split; [reflexivity|]. split; [reflexivity|]. left. reflexivity.
      * inversion Hs as [[Hx Hrest]]. exact (IH Ht _ _ _ Hrest).
    + destruct (split_keepends t) as [|l0 ls] eqn:Hsp.
      * destruct pre as [|x [|y pre]]; try discriminate.
        inversion Hs; subst. exists (String c EmptyString).
        split; [cbn [contains]; rewrite Hlf; reflexivity|].
        split; [cbn [contains]; rewrite Hc; reflexivity|].
        right. repeat split. discriminate.
      * destruct pre as [|x pre].
        -- inversion Hs; subst.
           destruct (IH Ht [] l0 post eq_refl) as [body [Hb1 [Hb2 Hb3]]].
           exists (String c body).
           split; [cbn [contains]; rewrite Hlf; exact Hb1|].
           split; [cbn [contains]; rewrite Hc; exact Hb2|].
           destruct Hb3 as [->|[-> [_ ->]]].
           ++ left. reflexivity.
           ++ right. repeat split. discriminate.
        -- inversion Hs; subst.
           exact (IH Ht (l0 :: pre) l post eq_refl).
Qed.

(** X8.  The lines [readlines] returns, put together, are the text of
    the file after newline translation.  Each line holds no carriage
    return and no line feed except one at its end, and only the last
    line may lack that line feed, in which case it is not empty. *)
Theorem readlines_line_shape (content : string) :
  String.concat EmptyString (readlines content) = universal_newlines content /\
  forall pre l post,
    readlines content = pre ++ l :: post ->
    exists body,
      contains LF body = false /\ contains CR body = false /\
      (l = (body ++ nl)%string \/ (l = body /\ body <> EmptyString /\ post = [])).
Proof.
  split; [apply concat_readlines|].
  apply split_keepends_shape. apply universal_newlines_no_CR.
Qed.

Lemma readlines_line_shape_witness :
  readlines (String "a" (String CR (String LF "b"))) =
  [] ++ String "a" nl :: ["b"] /\
  exists body,
    contains LF body = false /\ contains CR body = false /\
    (String "a" nl = (body ++ nl)%string \/
     (String "a" nl = body /\ body <> EmptyString /\ ["b"] = [])).
Proof.
  split; [reflexivity|].
  apply (proj2 (readlines_line_shape (String "a" (String CR (String LF "b"))))
           [] (String "a" nl) ["b"]).
  reflexivity.
Defined.

(** X9.  An ignore file saved with carriage-return line-feed endings
    gives the pattern compiler the same lines as the same file saved with
    line feeds alone. *)
Theorem load_gitignore_crlf
        {PathSpec : Type} (from_lines : list string -> PathSpec)
        (fs1 fs2 : node) (root_dir : Path) :
  is_file fs1 (gitignore_path root_dir) = true ->
  is_file fs2 (gitignore_path root_dir) = true ->
  contains CR (file_content fs1 (gitignore_path root_dir)) = false ->
  file_content fs2 (gitignore_path root_dir) =
  to_crlf (file_content fs1 (gitignore_path root_dir)) ->
  load_gitignore from_lines fs2 root_dir = load_gitignore from_lines fs1 root_dir.
Proof.
  intros H1 H2 Hcr Hc. unfold load_gitignore, patterns, readlines.
  rewrite H1, H2, Hc, (universal_newlines_to_crlf _ Hcr), (universal_newlines_id _ Hcr).
  reflexivity.
Qed.

Lemma load_gitignore_crlf_witness :
  file_content ignore_fs_crlf (gitignore_path sample_root) <>
  file_content ignore_fs (gitignore_path sample_root) /\
  load_gitignore (fun lines => lines) ignore_fs_crlf sample_root =
  load_gitignore (fun lines => lines) ignore_fs sample_root.
Proof.
  split; [vm_compute; discriminate|].
  apply (load_gitignore_crlf (fun lines => lines) ignore_fs ignore_fs_crlf sample_root);
    reflexivity.
Defined.

(** ** The language tag *)

Lemma string_length_append (s t : string) :
  String.length (s ++ t) = String.length s + String.length t.
Proof.
  induction s as [|c s IH]; simpl; [reflexivity|]. rewrite IH. reflexivity.
Qed.

Lemma rfind_absent (c : ascii) (s : string) :
  contains c s = false -> rfind c s = None.
Proof.
  induction s as [|d s IH]; simpl; [reflexivity|].
  intros H. apply orb_false_iff in H. destruct H as [Hd Hs].
  rewrite (IH Hs), Hd. reflexivity.
Qed.

Lemma rfind_None (c : ascii) (s : string) :
  rfind c s = None -> contains c s = false.
Proof.
  induction s as [|d s IH]; simpl; [reflexivity|].
  destruct (rfind c s) as [i|]; [discriminate|].
  destruct (Ascii.eqb d c); [discriminate|].
  intros _. exact (IH eq_refl).
Qed.

Lemma rfind_append (c : ascii) (pre post : string) :
  contains c post = false ->
  rfind c (pre ++ String c post) = Some (String.length pre).
Proof.
  intros Hpost. induction pre as [|d pre IH]; simpl.
  - rewrite (rfind_absent _ _ Hpost), Ascii.eqb_refl. reflexivity.
  - rewrite IH. reflexivity.
Qed.

Lemma rfind_Some (c : ascii) (s : string) :
  forall i, rfind c s = Some i ->
            exists pre post,
              s = (pre ++ String c post)%string /\ String.length pre = i /\
              contains c post = false.
Proof.
  induction s as [|d s IH]; simpl; intros i H; [discriminate|].
  destruct (rfind c s) as [j|] eqn:Hr.
  - inversion H; subst. destruct (IH j eq_refl) as [pre [post [-> [<- Hp]]]].
    exists (String d pre), post. repeat split. exact Hp.
  - destruct (Ascii.eqb d c) eqn:Hd; [|discriminate].
    inversion H; subst. apply Ascii.eqb_eq in Hd. subst d.
    exists EmptyString, s. repeat split. apply rfind_None. exact Hr.
Qed.

Lemma slice_from_append (pre t : string) :
  slice_from (String.length pre) (pre ++ t) = t.
Proof.
  induction pre as [|c pre IH]; simpl; [reflexivity|exact IH].
Qed.

Lemma lstrip_absent (c : ascii) (s : string) :
  contains c s = false -> lstrip c s = s.
Proof.
  destruct s as [|d s]; simpl; [reflexivity|].
  intros H. apply orb_false_iff in H. destruct H as [-> _]. reflexivity.
Qed.

Lemma lstrip_one (c : ascii) (s : string) :
  contains c s = false -> lstrip c (String c s) = s.
Proof.
  intros H. change (lstrip c (String c s))
    with (if Ascii.eqb c c then lstrip c s else String c s).
  rewrite Ascii.eqb_refl. apply lstrip_absent. exact H.
Qed.

Lemma suffix_of_name (p : Path) (pre post : string) :
  name p = (pre ++ String "." post)%string ->
  contains "." post = false ->
  suffix p =
  match pre, post with
  | String _ _, String _ _ => String "." post
  | _, _ => EmptyString
  end.
Proof.
  intros Hname Hpost. unfold suffix.
  rewrite Hname, (rfind_append _ _ _ Hpost), string_length_append, slice_from_append.
  destruct pre as [|a pre]; [reflexivity|].
  destruct post as [|b post].
  - replace (Nat.ltb (String.length (String a pre))
               (String.length (String a pre) + String.length (String "." "") - 1))
      with false; [rewrite andb_false_r; reflexivity|].
    symmetry. apply Nat.ltb_ge. simpl. lia.
  - replace (Nat.ltb (String.length (String a pre))
               (String.length (String a pre)
                + String.length (String "." (String b post)) - 1))
      with true; [reflexivity|].
    symmetry. apply Nat.ltb_lt. simpl. lia.
Qed.

(** X10.  The language tag of a fenced block is the extension of the
    file name: for a non-empty [ext], [lang] is [ext] exactly when [ext]
    holds no dot and the name is a non-empty stem, a dot and [ext]. *)
Theorem lang_is_extension (full_path : Path) (ext : string) :
  ext <> EmptyString ->
  (lang full_path = ext <->
   contains "." ext = false /\
   exists stem, stem <> EmptyString /\
                name full_path = (stem ++ String "." ext)%string).
Proof.
  intros Hext. split.
  - intros Hlang. unfold lang in Hlang.
    destruct (rfind "." (name full_path)) as [i|] eqn:Hr.
    + destruct (rfind_Some _ _ _ Hr) as [pre [post [Hname [_ Hpost]]]].
      rewrite (suffix_of_name _ _ _ Hname Hpost) in Hlang.
      destruct pre as [|a pre]; [simpl in Hlang; congruence|].
      destruct post as [|b post]; [simpl in Hlang; congruence|].
      rewrite (lstrip_one _ _ Hpost) in Hlang. subst ext.
      split; [exact Hpost|]. exists (String a pre). split; [discriminate|exact Hname].
    + unfold suffix in Hlang. rewrite Hr in Hlang. simpl in Hlang. congruence.
  - intros [Hdot [stem [Hstem Hname]]]. unfold lang.
    rewrite (suffix_of_name _ _ _ Hname Hdot).
    destruct stem as [|a stem]; [congruence|].
    destruct ext as [|b ext]; [congruence|].
    apply lstrip_one. exact Hdot.
Qed.

Lemma lang_is_extension_witness :
  lang (mkPath "/" ["proj"; "archive.tar.gz"]) = "gz".
Proof.
  apply (lang_is_extension (mkPath "/" ["proj"; "archive.tar.gz"]) "gz");
    [discriminate|].
  split; [reflexivity|]. exists "archive.tar". split; [discriminate|reflexivity].
Defined.

(** ** The document *)

Lemma append_assoc_string (s t u : string) :
  ((s ++ t) ++ u = s ++ (t ++ u))%string.
Proof.
  induction s as [|c s IH]; simpl; [reflexivity|]. rewrite IH. reflexivity.
Qed.

Lemma written_app (a b : list string) :
  written (a ++ b) = (written a ++ written b)%string.
Proof.
  unfold written. induction a as [|x a IH]; simpl; [reflexivity|].
  rewrite IH, append_assoc_string. reflexivity.
Qed.

Lemma codebase_document_split
      (f : flavour) (infile_read : Path -> read_outcome)
      (generated_on project_name : string)
      (l1 l2 : list (Path * Path)) (e : Path * Path) :
  codebase_document f infile_read generated_on project_name (l1 ++ e :: l2) =
  (written (header generated_on project_name (length (l1 ++ e :: l2)) ++
            flat_map (file_section f infile_read) l1)
   ++ written (file_section f infile_read e)
   ++ written (flat_map (file_section f infile_read) l2))%string.
Proof.
  unfold codebase_document, outfile_writes.
  rewrite flat_map_app. cbn [flat_map].
  rewrite app_assoc, !written_app. reflexivity.
Qed.

Lemma file_section_agree
      (f : flavour) (read1 read2 : Path -> read_outcome) (e : Path * Path) :
  read1 (fst e) = read2 (fst e) -> file_section f read1 e = file_section f read2 e.
Proof.
  destruct e as [full_path relative_path]. unfold file_section. simpl.
  intros ->. reflexivity.
Qed.

(** X11.  What reading one file gives affects the section of that file
    alone: two readers that agree on every other entry of the list
    produce documents that differ only in that section. *)
Theorem read_failure_is_local
        (f : flavour) (read1 read2 : Path -> read_outcome)
        (generated_on project_name : string)
        (l1 l2 : list (Path * Path)) (e : Path * Path) :
  (forall e', In e' (l1 ++ l2) -> read1 (fst e') = read2 (fst e')) ->
  exists before after,
    codebase_document f read1 generated_on project_name (l1 ++ e :: l2) =
    (before ++ written (file_section f read1 e) ++ after)%string /\
    codebase_document f read2 generated_on project_name (l1 ++ e :: l2) =
    (before ++ written (file_section f read2 e) ++ after)%string.
Proof.
  intros Hagree.
  exists (written (header generated_on project_name (length (l1 ++ e :: l2)) ++
                   flat_map (file_section f read1) l1)),
         (written (flat_map (file_section f read1) l2)).
  split; [apply codebase_document_split|].
  rewrite codebase_document_split.
  rewrite (flat_map_ext_In (file_section f read2) (file_section f read1) l1).
  - rewrite (flat_map_ext_In (file_section f read2) (file_section f read1) l2).
    + reflexivity.
    + intros e' He'. apply file_section_agree. symmetry. apply Hagree.
      apply in_or_app. right. exact He'.
  - intros e' He'. apply file_section_agree. symmetry. apply Hagree.
    apply in_or_app. left. exact He'.
Qed.

Lemma read_failure_is_local_witness :
  exists before after,
    codebase_document Posix (read_snapshot sample_fs) "2024-01-01 00:00:00" "proj"
      ([entry_of sample_root ["a.py"]]
       ++ entry_of sample_root ["ln"] :: [entry_of sample_root ["sub"; "file.txt"]]) =
    (before
     ++ written (file_section Posix (read_snapshot sample_fs) (entry_of sample_root ["ln"]))
     ++ after)%string /\
    codebase_document Posix (read_undecodable (child sample_root ["ln"]) sample_fs)
      "2024-01-01 00:00:00" "proj"
      ([entry_of sample_root ["a.py"]]
       ++ entry_of sample_root ["ln"] :: [entry_of sample_root ["sub"; "file.txt"]]) =
    (before
     ++ written (file_section Posix (read_undecodable (child sample_root ["ln"]) sample_fs)
                   (entry_of sample_root ["ln"]))
     ++ after)%string.
Proof.
  apply (read_failure_is_local Posix (read_snapshot sample_fs)
           (read_undecodable (child sample_root ["ln"]) sample_fs)
           "2024-01-01 00:00:00" "proj"
           [entry_of sample_root ["a.py"]] [entry_of sample_root ["sub"; "file.txt"]]
           (entry_of sample_root ["ln"])).
  intros e' [<-|[<-|[]]]; reflexivity.
Defined.

(** X12.  A listed file that can be read is quoted in the document: its
    heading with the slash-separated relative path, then its text,
    unchanged, inside a fenced block tagged with [lang]. *)
Theorem readable_file_is_quoted
        (f : flavour) (infile_read : Path -> read_outcome)
        (generated_on project_name : string)
        (files_list : list (Path * Path))
        (full_path relative_path : Path) (content : string) :
  In (full_path, relative_path) files_list ->
  infile_read full_path = Content content ->
  exists before after,
    codebase_document f infile_read generated_on project_name files_list =
    (before
     ++ written [("---" ++ nl)%string;
                 ("### File: `" ++ replace (os_sep f) slash (str f relative_path)
                  ++ "`" ++ nl)%string;
                 ("---" ++ nl ++ nl)%string;
                 ("```" ++ lang full_path ++ nl)%string;
                 content;
                 (nl ++ "```" ++ nl ++ nl)%string]
     ++ after)%string.
Proof.
  intros Hin Hread. apply in_split in Hin. destruct Hin as [l1 [l2 ->]].
  do 2 eexists. rewrite codebase_document_split.
  unfold file_section at 2. rewrite Hread. reflexivity.
Qed.

Lemma readable_file_is_quoted_witness :
  exists before after,
    codebase_document Posix (read_snapshot sample_fs) "2024-01-01 00:00:00" "proj"
      [entry_of sample_root ["a.py"]; entry_of sample_root ["sub"; "file.txt"]] =
    (before
     ++ written [("---" ++ nl)%string;
                 ("### File: `"
                  ++ replace (os_sep Posix) slash (str Posix (relative ["sub"; "file.txt"]))
                  ++ "`" ++ nl)%string;
                 ("---" ++ nl ++ nl)%string;
                 ("```" ++ lang (child sample_root ["sub"; "file.txt"]) ++ nl)%string;
                 "hello";
                 (nl ++ "```" ++ nl ++ nl)%string]
     ++ after)%string.
Proof.
  apply (readable_file_is_quoted Posix (read_snapshot sample_fs)
           "2024-01-01 00:00:00" "proj"
           [entry_of sample_root ["a.py"]; entry_of sample_root ["sub"; "file.txt"]]
           (child sample_root ["sub"; "file.txt"]) (relative ["sub"; "file.txt"])
           "hello").
  - right. left. reflexivity.
  - reflexivity.
Defined.

(** X13.  The paths shown in the headings of the gathered files are, in
    order, exactly the strings that were handed to the matcher and not
    matched. *)
Theorem headings_are_tested_paths
        {PathSpec : Type} (match_file : PathSpec -> string -> bool)
        (f : flavour) (fs : node) (root_dir : Path) (spec : PathSpec) :
  exists st,
    gather_run match_file f fs root_dir spec = Ok st /\
    map (fun e => heading f (snd e)) (files_to_include st) =
    map (fun path => ("### File: `" ++ path ++ "`" ++ nl)%string)
        (filter (fun path => negb (match_file spec path)) (match_calls st)).
Proof.
  eexists. split; [apply gather_run_eq|].
  cbn [match_calls files_to_include].
  rewrite filter_map_swap, filter_twice, !map_map.
  apply map_ext. intros rel. reflexivity.
Qed.

(** ** The driver, again *)

Lemma append_nonempty (s t : string) :
  t <> EmptyString -> (s ++ t)%string <> EmptyString.
Proof.
  destruct s; simpl; [tauto|discriminate].
Qed.

(** X15.  When a run writes the document, the project name is the name
    of the root, the files are those the walk returned under the pattern
    set of [load_gitignore], at least one, and the file name is the one
    given with
    [-o] when it is not empty and [<name>_codebase.md] otherwise; it is
    never empty and is the one reported at the end of the run. *)
Theorem main_output_filename
        {PathSpec : Type} (from_lines : list string -> PathSpec)
        (match_file : PathSpec -> string -> bool)
        (f : flavour) (fs : node) (writable : bool) (elapsed : string)
        (root_dir : Path) (output_arg : option string)
        (output_filename project_name : string) (files_list : list (Path * Path)) :
  In (WriteOutput output_filename project_name files_list)
     (main from_lines match_file f fs writable elapsed root_dir output_arg) ->
  project_name = name root_dir /\
  gather_files_to_include match_file f fs root_dir (load_gitignore from_lines fs root_dir)
  = Ok files_list /\
  files_list <> [] /\
  output_filename <> EmptyString /\
  (forall given, output_arg = Some given -> given <> EmptyString ->
                 output_filename = given) /\
  (output_arg = None \/ output_arg = Some EmptyString ->
   output_filename = (name root_dir ++ "_codebase.md")%string) /\
  In (Print ("Output file: " ++ output_filename))
     (main from_lines match_file f fs writable elapsed root_dir output_arg).
Proof.
  unfold main.
  destruct (is_dir fs root_dir); cbn [negb];
    [|intros [H|[]]; discriminate].
  destruct (gather_files_to_include match_file f fs root_dir
              (load_gitignore from_lines fs root_dir)) as [[|e files]|];
    [intros [H|[H|[]]]; discriminate| |intros [H|[H|[]]]; discriminate].
  destruct writable; cbn [write_codebase_to_file];
    [|simpl; intuition discriminate].
  intros H. simpl in H.
  destruct H as [H|[H|[H|H]]]; try discriminate;
    [|repeat (destruct H as [H|H]; [discriminate|]); contradiction].
  inversion H as [[Hfn Hpn Hfl]]. clear H.
  split; [reflexivity|]. split; [reflexivity|]. split; [discriminate|].
  split; [|split; [|split]].
  - destruct output_arg as [[|c s]|]; try discriminate;
      apply append_nonempty; discriminate.
  - intros given -> Hgiven. destruct given; [congruence|reflexivity].
  - intros [->| ->]; reflexivity.
  - cbn [app In]. do 7 right. left. reflexivity.
Qed.

Lemma main_output_filename_witness :
  In (WriteOutput "proj_codebase.md" "proj"
        [entry_of sample_root ["a.py"]; entry_of sample_root ["ln"];
         entry_of sample_root ["sub"; "file.txt"]])
     (main (fun _ => tt) no_rules_match_file Posix sample_fs true "0.00" sample_root None)
  /\
  In (Print "Output file: proj_codebase.md")
     (main (fun _ => tt) no_rules_match_file Posix sample_fs true "0.00" sample_root None).
Proof.
  assert (H : In (WriteOutput "proj_codebase.md" "proj"
                    [entry_of sample_root ["a.py"]; entry_of sample_root ["ln"];
                     entry_of sample_root ["sub"; "file.txt"]])
                 (main (fun _ => tt) no_rules_match_file Posix sample_fs true "0.00"
                       sample_root None))
    by (vm_compute; tauto).
  split; [exact H|].
  exact (proj2 (proj2 (proj2 (proj2 (proj2 (proj2
           (main_output_filename _ _ _ _ _ _ _ _ _ _ _ H))))))).
Defined.

(** X16.  When the output file cannot be opened, a run that gathered
    files writes no document and still ends by reporting success, with
    the number of files gathered. *)
Theorem main_reports_success_without_output
        {PathSpec : Type} (from_lines : list string -> PathSpec)
        (match_file : PathSpec -> string -> bool)
        (f : flavour) (fs : node) (elapsed : string)
        (root_dir : Path) (output_arg : option string)
        (e : Path * Path) (files : list (Path * Path)) :
  is_dir fs root_dir = true ->
  gather_files_to_include match_file f fs root_dir (load_gitignore from_lines fs root_dir)
  = Ok (e :: files) ->
  existsb is_output
    (main from_lines match_file f fs false elapsed root_dir output_arg) = false /\
  In (Print ("Success! Combined " ++ decimal (length (e :: files))
             ++ " files into a single file."))
     (main from_lines match_file f fs false elapsed root_dir output_arg).
Proof.
  intros Hdir Hfiles. unfold main. rewrite Hdir, Hfiles.
  cbn [negb write_codebase_to_file app]. split.
  - reflexivity.
  - cbn [In]. do 6 right. left. reflexivity.
Qed.

Lemma main_reports_success_without_output_witness :
  existsb is_output
    (main (fun _ => tt) no_rules_match_file Posix sample_fs false "0.00" sample_root None)
  = false /\
  In (Print "Success! Combined 3 files into a single file.")
     (main (fun _ => tt) no_rules_match_file Posix sample_fs false "0.00" sample_root None).
Proof.
  apply (main_reports_success_without_output (fun _ => tt) no_rules_match_file Posix
           sample_fs "0.00" sample_root None
           (entry_of sample_root ["a.py"])
           [entry_of sample_root ["ln"]; entry_of sample_root ["sub"; "file.txt"]]).
  - reflexivity.
  - reflexivity.
Defined.

(** * The script with its exceptions *)

(** ** Looking up an entry *)

Lemma full_lookup_sound (acc : Full.access) (ps : list string) :
  forall here n r,
    Full.lookup acc here n ps = Full.Returns r -> r = lookup n ps.
Proof.
  induction ps as [|p ps IH]; intros here n r H; simpl in *.
  - congruence.
  - destruct n as [c|es|t|s]; try congruence.
    destruct (Full.searchable acc here); [|discriminate].
    destruct (find_entry p es) as [c|]; [|congruence].
    exact (IH _ _ _ H).
Qed.

Lemma full_lookup_raises (acc : Full.access) (ps : list string) :
  forall here n e,
    Full.lookup acc here n ps = Full.Raises e -> e = Full.PermissionError.
Proof.
  induction ps as [|p ps IH]; intros here n e H; simpl in *.
  - discriminate.
  - destruct n as [c|es|t|s]; try discriminate.
    destruct (Full.searchable acc here); [|congruence].
    destruct (find_entry p es) as [c|]; [|discriminate].
    exact (IH _ _ _ H).
Qed.

Lemma full_lookup_searchable (acc : Full.access) (ps : list string) :
  (forall q, Full.searchable acc q = true) ->
  forall here n, Full.lookup acc here n ps = Full.Returns (lookup n ps).
Proof.
  intros Hs. induction ps as [|p ps IH]; intros here n; simpl.
  - reflexivity.
  - destruct n as [c|es|t|s]; try reflexivity.
    rewrite Hs. destruct (find_entry p es) as [c|]; [apply IH|reflexivity].
Qed.

Lemma full_stat_sound (acc : Full.access) (fs : node) (p : Path) (r : option node) :
  Full.stat acc fs p = Full.Returns r -> r = stat fs p.
Proof.
  apply full_lookup_sound.
Qed.

Lemma full_is_file_sound (acc : Full.access) (fs : node) (p : Path) (b : bool) :
  Full.is_file acc fs p = Full.Returns b -> b = is_file fs p.
Proof.
  unfold Full.is_file, is_file.
  destruct (Full.stat acc fs p) as [r|e] eqn:Hs; simpl; [|discriminate].
  apply full_stat_sound in Hs. subst r. congruence.
Qed.

Lemma full_is_file_raises (acc : Full.access) (fs : node) (p : Path) (e : Full.exception) :
  Full.is_file acc fs p = Full.Raises e -> e = Full.PermissionError.
Proof.
  unfold Full.is_file, Full.stat.
  destruct (Full.lookup acc [] fs (parts p)) as [r|e'] eqn:Hs; simpl; [discriminate|].
  intros H. inversion H; subst. exact (full_lookup_raises _ _ _ _ _ Hs).
Qed.

Lemma full_is_file_searchable (acc : Full.access) (fs : node) (p : Path) :
  (forall q, Full.searchable acc q = true) ->
  Full.is_file acc fs p = Full.Returns (is_file fs p).
Proof.
  intros Hs. unfold Full.is_file, Full.stat, is_file, stat.
  rewrite (full_lookup_searchable acc _ Hs). reflexivity.
Qed.

Lemma full_is_dir_sound (acc : Full.access) (fs : node) (p : Path) (b : bool) :
  Full.is_dir acc fs p = Full.Returns b -> b = is_dir fs p.
Proof.
  unfold Full.is_dir, is_dir.
  destruct (Full.stat acc fs p) as [r|e] eqn:Hs; simpl; [|discriminate].
  apply full_stat_sound in Hs. subst r. congruence.
Qed.

(** ** The loop *)

Section FullWalk.

Context {PathSpec : Type} (match_file : PathSpec -> string -> bool).
Variables (f : flavour) (acc : Full.access) (fs : node) (root_dir : Path)
          (spec : PathSpec).

Let shown (rel : list string) : string := relative_path_str f (relative rel).

Lemma full_visit_returns (st : walk_state) (rel : list string) (b : bool) :
  Full.is_file acc fs (child root_dir rel) = Full.Returns b ->
  Full.visit match_file f acc fs root_dir spec st (child root_dir rel) =
  Full.Returns
    (mkState
       (files_to_include st ++
        map (entry_of root_dir) (filter (kept match_file f fs root_dir spec) [rel]))
       (match_calls st ++ map shown (filter (visited fs root_dir) [rel]))).
Proof.
  intros Hb. unfold Full.visit. rewrite Hb. cbn [Full.bind].
  apply full_is_file_sound in Hb.
  cbn [filter]. unfold kept, visited. rewrite <- Hb.
  destruct b; cbn [andb].
  - rewrite relative_to_child. fold (relative_path_str f (relative rel)).
    fold (shown rel).
    destruct (match_file spec (shown rel)); cbn [negb map];
      rewrite ?app_nil_r; reflexivity.
  - cbn [map]. rewrite !app_nil_r. destruct st; reflexivity.
Qed.

Lemma full_for_each_visit (rels : list (list string)) :
  forall st,
    (forall rel, In rel rels ->
                 exists b, Full.is_file acc fs (child root_dir rel) = Full.Returns b) ->
    Full.for_each (Full.visit match_file f acc fs root_dir spec) st
                  (map (child root_dir) rels) =
    Full.Returns
      (mkState
         (files_to_include st ++
          map (entry_of root_dir) (filter (kept match_file f fs root_dir spec) rels))
         (match_calls st ++ map shown (filter (visited fs root_dir) rels))).
Proof.
  induction rels as [|rel rels IH]; intros st Hall.
  - simpl. rewrite !app_nil_r. destruct st; reflexivity.
  - destruct (Hall rel (or_introl eq_refl)) as [b Hb].
    cbn [map Full.for_each]. rewrite (full_visit_returns st rel b Hb).
    cbn [Full.bind]. rewrite IH by (intros r Hr; apply Hall; right; exact Hr).
    cbn [files_to_include match_calls filter].
    destruct (kept match_file f fs root_dir spec rel);
      destruct (visited fs root_dir rel);
      cbn [map app]; rewrite <- ?app_assoc, ?app_nil_r; reflexivity.
Qed.


Lemma full_for_each_raises (rels : list (list string)) :
  forall st e,
    Full.for_each (Full.visit match_file f acc fs root_dir spec) st
                  (map (child root_dir) rels) = Full.Raises e ->
    e = Full.PermissionError.
Proof.
  induction rels as [|rel rels IH]; intros st e H; [discriminate|].
  cbn [map Full.for_each] in H.
  destruct (Full.is_file acc fs (child root_dir rel)) as [b|e'] eqn:Hb.
  - rewrite (full_visit_returns st rel b Hb) in H. cbn [Full.bind] in H.
    exact (IH _ _ H).
  - unfold Full.visit in H. rewrite Hb in H. cbn [Full.bind] in H.
    inversion H; subst. exact (full_is_file_raises _ _ _ _ Hb).
Qed.

Lemma full_gather_run_returns :
  stats_succeed acc fs root_dir ->
  Full.gather_run match_file f acc fs root_dir spec =
  Full.Returns
    (mkState
       (map (entry_of root_dir)
            (filter (kept match_file f fs root_dir spec)
                    (Full.rglob_relative acc fs root_dir)))
       (map shown (filter (visited fs root_dir) (Full.rglob_relative acc fs root_dir)))).
Proof.
  intros [[d Hd] Hall]. unfold Full.gather_run, Full.rglob.
  rewrite Hd. cbn [Full.bind]. rewrite (full_for_each_visit _ _ Hall). reflexivity.
Qed.


Lemma full_gather_files_returns :
  stats_succeed acc fs root_dir ->
  Full.gather_files_to_include match_file f acc fs root_dir spec =
  Full.Returns
    (map (entry_of root_dir)
         (filter (kept match_file f fs root_dir spec)
                 (Full.rglob_relative acc fs root_dir))).
Proof.
  intros H. unfold Full.gather_files_to_include.
  rewrite (full_gather_run_returns H). reflexivity.
Qed.


Lemma full_gather_files_raises (e : Full.exception) :
  Full.gather_files_to_include match_file f acc fs root_dir spec = Full.Raises e ->
  e = Full.PermissionError.
Proof.
  unfold Full.gather_files_to_include, Full.gather_run, Full.rglob, Full.stat.
  destruct (Full.lookup acc [] fs (parts root_dir)) as [d|e'] eqn:Hd; cbn [Full.bind].
  - destruct (Full.for_each _ _ _) as [st|e'] eqn:Hf; cbn [Full.bind]; [discriminate|].
    intros H. inversion H; subst. exact (full_for_each_raises _ _ _ Hf).
  - intros H. inversion H; subst. exact (full_lookup_raises _ _ _ _ _ Hd).
Qed.

End FullWalk.

(** ** The traversal *)

Lemma full_walk_Dir (acc : Full.access) (here prefix : list string)
      (es : list (string * node)) :
  Full.walk acc here prefix (Dir es) =
  if Full.listable acc here then
    map (fun e => prefix ++ [fst e]) es ++
    (if Full.searchable acc here then
       flat_map (fun e => Full.walk acc (here ++ [fst e]) (prefix ++ [fst e]) (snd e)) es
     else [])
  else [].
Proof.
  cbn [Full.walk]. destruct (Full.listable acc here); [|reflexivity].
  f_equal. destruct (Full.searchable acc here); [|reflexivity].
  induction es as [|[m c] es IH]; [reflexivity|].
  cbn [flat_map fst snd]. rewrite <- IH. reflexivity.
Qed.





(** ** Inclusion *)






(** ** Building the pattern set *)

(** C2, as stated, fails: an ignore file that is not UTF-8 text makes
    [load_gitignore] raise instead of returning a pattern set. *)
Lemma undecodable_gitignore_raises :
  Full.is_file Full.open_access undecodable_fs (gitignore_path sample_root)
  = Full.Returns true /\
  utf8_valid (file_content undecodable_fs (gitignore_path sample_root)) = false /\
  Full.load_gitignore accept_all Full.open_access undecodable_fs sample_root
  = Full.Raises Full.UnicodeDecodeError.
Proof.
  repeat split; reflexivity.
Qed.

(** C2, amended.  Without an ignore file the lines compiled are the four
    default patterns alone.  With an ignore file that opens and decodes
    they are its lines followed by the four default patterns, in that
    order; the lines put together are the text of the file after newline
    translation, each ends at its line feed and only the last may lack
    one.  The pattern set is what the compiler makes of these lines, if
    it accepts them.  An ignore file that may not be opened or does not
    decode makes the call raise. *)
Theorem load_gitignore_lines_then_defaults
        {PathSpec : Type} (from_lines : list string -> option PathSpec)
        (acc : Full.access) (fs : node) (root_dir : Path) :
  (Full.is_file acc fs (gitignore_path root_dir) = Full.Returns false ->
   Full.load_gitignore from_lines acc fs root_dir =
   compiled from_lines [".git/"; "__pycache__/"; "*.pyc"; ".DS_Store"]) /\
  (Full.is_file acc fs (gitignore_path root_dir) = Full.Returns true ->
   Full.openable acc (parts (gitignore_path root_dir)) = true ->
   utf8_valid (file_content fs (gitignore_path root_dir)) = true ->
   exists lines,
     Full.load_gitignore from_lines acc fs root_dir =
     compiled from_lines (lines ++ [".git/"; "__pycache__/"; "*.pyc"; ".DS_Store"]) /\
     String.concat EmptyString lines =
     universal_newlines (file_content fs (gitignore_path root_dir)) /\
     forall pre l post,
       lines = pre ++ l :: post ->
       exists body,
         contains LF body = false /\ contains CR body = false /\
         (l = (body ++ nl)%string \/ (l = body /\ body <> EmptyString /\ post = []))) /\
  (Full.is_file acc fs (gitignore_path root_dir) = Full.Returns true ->
   Full.openable acc (parts (gitignore_path root_dir)) = true ->
   utf8_valid (file_content fs (gitignore_path root_dir)) = false ->
   Full.load_gitignore from_lines acc fs root_dir = Full.Raises Full.UnicodeDecodeError) /\
  (Full.is_file acc fs (gitignore_path root_dir) = Full.Returns true ->
   Full.openable acc (parts (gitignore_path root_dir)) = false ->
   Full.load_gitignore from_lines acc fs root_dir = Full.Raises Full.PermissionError).
Proof.
  unfold Full.load_gitignore, Full.open_readlines, compiled.
  split; [|split; [|split]].
  - intros ->. reflexivity.
  - intros -> -> ->. cbn [Full.bind].
    exists (readlines (file_content fs (gitignore_path root_dir))).
    split; [reflexivity|]. split; [apply concat_readlines|].
    apply split_keepends_shape. apply universal_newlines_no_CR.
  - intros -> -> ->. reflexivity.
  - intros -> ->. reflexivity.
Qed.

Lemma load_gitignore_lines_then_defaults_witness :
  Full.load_gitignore accept_all Full.open_access sample_fs sample_root =
  Full.Returns [".git/"; "__pycache__/"; "*.pyc"; ".DS_Store"] /\
  exists lines,
    Full.load_gitignore accept_all Full.open_access ignore_fs sample_root =
    Full.Returns (lines ++ [".git/"; "__pycache__/"; "*.pyc"; ".DS_Store"]) /\
    String.concat EmptyString lines = ignore_text.
Proof.
  destruct (load_gitignore_lines_then_defaults accept_all Full.open_access sample_fs
              sample_root) as [Hmissing _].
  destruct (load_gitignore_lines_then_defaults accept_all Full.open_access ignore_fs
              sample_root) as [_ [Hpresent _]].
  split.
  - rewrite (Hmissing eq_refl). reflexivity.
  - destruct (Hpresent eq_refl eq_refl eq_refl) as [lines [Hload [Hconcat _]]].
    exists lines. split; [exact Hload|].
    rewrite Hconcat. reflexivity.
Defined.

(** ** The driver *)



(** ** Where nothing is refused *)

(** With every permission granted, an ignore file that decodes and a
    compiler that accepts every line, the functions of [Full] are those
    of the plain embedding. *)

Lemma full_walk_open (n : node) :
  forall here prefix, Full.walk Full.open_access here prefix n = walk prefix n.
Proof.
  induction n as [c|es IH|t|s] using node_entries_ind; intros here prefix;
    try reflexivity.
  rewrite full_walk_Dir, walk_Dir. cbn [Full.open_access Full.listable Full.searchable].
  f_equal. rewrite Forall_forall in IH.
  apply flat_map_ext_In. intros e He. apply IH. exact He.
Qed.

Lemma full_stat_open (fs : node) (p : Path) :
  Full.stat Full.open_access fs p = Full.Returns (stat fs p).
Proof.
  unfold Full.stat, stat. apply full_lookup_searchable. reflexivity.
Qed.

Lemma full_is_dir_open (fs : node) (p : Path) :
  Full.is_dir Full.open_access fs p = Full.Returns (is_dir fs p).
Proof.
  unfold Full.is_dir, is_dir. rewrite full_stat_open. reflexivity.
Qed.

Lemma full_rglob_relative_open (fs : node) (root_dir : Path) :
  Full.rglob_relative Full.open_access fs root_dir = rglob_relative fs root_dir.
Proof.
  unfold Full.rglob_relative, rglob_relative. rewrite full_stat_open.
  destruct (stat fs root_dir) as [d|]; [apply full_walk_open|reflexivity].
Qed.

Lemma full_gather_open
      {PathSpec : Type} (match_file : PathSpec -> string -> bool)
      (f : flavour) (fs : node) (root_dir : Path) (spec : PathSpec) :
  exists files,
    Full.gather_files_to_include match_file f Full.open_access fs root_dir spec
    = Full.Returns files /\
    gather_files_to_include match_file f fs root_dir spec = Ok files.
Proof.
  eexists. split; [|apply gather_files_eq].
  rewrite <- full_rglob_relative_open. apply full_gather_files_returns. split.
  - eexists. apply full_stat_open.
  - intros rel _. eexists. apply full_is_file_searchable. reflexivity.
Qed.

Lemma full_load_gitignore_open
      {PathSpec : Type} (from_lines : list string -> PathSpec)
      (fs : node) (root_dir : Path) :
  (is_file fs (gitignore_path root_dir) = true ->
   utf8_valid (file_content fs (gitignore_path root_dir)) = true) ->
  Full.load_gitignore (fun lines => Some (from_lines lines)) Full.open_access fs root_dir
  = Full.Returns (load_gitignore from_lines fs root_dir).
Proof.
  intros Hvalid. unfold Full.load_gitignore, load_gitignore, patterns.
  rewrite full_is_file_searchable by reflexivity. cbn [Full.bind].
  destruct (is_file fs (gitignore_path root_dir)); [|reflexivity].
  unfold Full.open_readlines. cbn [Full.open_access Full.openable].
  rewrite (Hvalid eq_refl). reflexivity.
Qed.

Lemma full_main_open
      {PathSpec : Type} (from_lines : list string -> PathSpec)
      (match_file : PathSpec -> string -> bool)
      (f : flavour) (fs : node) (elapsed : string)
      (root_dir : Path) (output_arg : option string) :
  (is_file fs (gitignore_path root_dir) = true ->
   utf8_valid (file_content fs (gitignore_path root_dir)) = true) ->
  Full.main (fun lines => Some (from_lines lines)) match_file f Full.open_access fs
            Full.Completed elapsed root_dir output_arg =
  main from_lines match_file f fs true elapsed root_dir output_arg.
Proof.
  intros Hvalid. unfold Full.main, main.
  rewrite full_is_dir_open, (full_load_gitignore_open from_lines fs root_dir Hvalid).
  destruct (is_dir fs root_dir); [|reflexivity]. cbn [negb].
  destruct (full_gather_open match_file f fs root_dir
              (load_gitignore from_lines fs root_dir)) as [files [-> ->]].
  reflexivity.
Qed.
